(** * Study manager: SM-2 scheduling and the JSON deck store

    A shallow embedding of [scripts/study_manager.py].

    - Python [float]s are IEEE binary64 numbers: they are modelled by Rocq's
      primitive floats, whose operations are the same correctly rounded
      binary64 operations.  Python [int]s are unbounded: they are [Z].
    - The data directory is a finite map from file names to the JSON document
      each file holds.  [json.dumps]/[json.loads] are the library's inverse
      pair on documents, so a file is modelled by its document.
    - JSON objects are typed by the way the code reads them: a key read with
      [d["k"]] is a field, a key read with [d.get("k", v)] is an optional field.
    - Timestamps ([datetime.isoformat] strings) are microseconds since
      0001-01-01T00:00:00, dates are day numbers; one reading of the clock,
      [now], is taken per call. *)

From Stdlib Require Import ZArith Floats Lia List Bool Reals Lra.
From stdpp Require Import base option list gmap strings pretty.

Local Open Scope string_scope.
Local Open Scope Z_scope.

(* Decimal literals such as 1.3 denote the nearest binary64 value, as in Python. *)
Set Warnings "-inexact-float".

(** ** Exceptions and outcomes *)

Inductive exn :=
  | ValueError (msg : string)
  | KeyError (key : string)
  | OverflowError (msg : string).

Inductive outcome (A : Type) :=
  | Return (a : A)
  | Raise (e : exn).
Arguments Return {A} a.
Arguments Raise {A} e.

#[global] Instance outcome_ret : MRet outcome := @Return.
#[global] Instance outcome_bind : MBind outcome := fun A B k x =>
  match x with
  | Return a => k a
  | Raise e => Raise e
  end.

(** ** Python floats *)

Module PyFloat.

(** [max(a, b)] on two arguments: [b] replaces [a] only when [b > a]. *)
Definition py_max (a b : float) : float :=
  if PrimFloat.ltb a b then b else a.

(** [float(i)] as done by [int * float]: correctly rounded, ties to even;
    [OverflowError] when the rounded value is not finite. *)
Definition py_float (i : Z) : outcome float :=
  match binary_normalize prec emax i 0 false with
  | S754_infinity _ => Raise (OverflowError "int too large to convert to float")
  | sf => Return (SF2Prim sf)
  end.

(** The integer part of a positive dyadic [m * 2^e]. *)
Definition dyadic_quot (m : positive) (e : Z) : Z :=
  if 0 <=? e then Z.pos m * 2 ^ e else Z.pos m / 2 ^ (- e).

(** [int(x)]: truncation toward zero. *)
Definition py_int (x : float) : outcome Z :=
  match Prim2SF x with
  | S754_nan => Raise (ValueError "cannot convert float NaN to integer")
  | S754_infinity _ => Raise (OverflowError "cannot convert float infinity to integer")
  | S754_zero _ => Return 0
  | S754_finite s m e => Return (cond_Zopp s (dyadic_quot m e))
  end.

(** [math.floor(x)]: rounding toward minus infinity. *)
Definition py_floor (x : float) : outcome Z :=
  match Prim2SF x with
  | S754_nan => Raise (ValueError "cannot convert float NaN to integer")
  | S754_infinity _ => Raise (OverflowError "cannot convert float infinity to integer")
  | S754_zero _ => Return 0
  | S754_finite false m e => Return (dyadic_quot m e)
  | S754_finite true m e =>
      Return (if 0 <=? e then - (Z.pos m * 2 ^ e) else (- Z.pos m) / 2 ^ (- e))
  end.

(** Nearest integer to [a / b], ties to the even one ([0 <= a], [0 < b]). *)
Definition div_half_even (a b : Z) : Z :=
  let q := a / b in
  match 2 * (a mod b) ?= b with
  | Lt => q
  | Gt => q + 1
  | Eq => if Z.even q then q else q + 1
  end.

(** The number of hundredths nearest to the exact value of [m * 2^e]. *)
Definition hundredths (m : positive) (e : Z) : Z :=
  if 0 <=? e then Z.pos m * 2 ^ e * 100
  else div_half_even (Z.pos m * 100) (2 ^ (- e)).

(** [round(x, 2)]: the exact value of [x] is rounded, ties to even, to two
    decimals, and the decimal is converted back to the nearest float.
    Infinities and NaN round to themselves. *)
Definition py_round2 (x : float) : float :=
  match Prim2SF x with
  | S754_finite s m e =>
      match hundredths m e with
      | Z.pos n => SF2Prim (SF64div (S754_finite s n 0) (S754_finite false 100 0))
      | _ => SF2Prim (S754_zero s)
      end
  | _ => x
  end.

End PyFloat.
Import PyFloat.

(** ** Clock and calendar *)

Definition datetime := Z.

Definition day_us : Z := 86400000000.

(** [datetime.max] is 9999-12-31T23:59:59.999999, day number 3652058. *)
Definition datetime_end : Z := 3652059 * day_us.

(** [t.date()], as a day number. *)
Definition date_of (t : datetime) : Z := t / day_us.

(** [t + timedelta(days=n)]: [timedelta] refuses more than 999999999 days,
    and the sum must be a representable [datetime]. *)
Definition add_days (t : datetime) (n : Z) : outcome datetime :=
  if 999999999 <? Z.abs n then Raise (OverflowError "days out of range for timedelta")
  else
    let r := t + n * day_us in
    if (0 <=? r) && (r <? datetime_end) then Return r
    else Raise (OverflowError "date value out of range").

(** ** Documents *)

Record card := Card {
  c_id : string;
  c_front : string;
  c_back : string;
  c_interval : option Z;
  c_ease : option float;
  c_due : option datetime;          (* [None] is JSON null *)
  c_reps : option Z;
  c_created : datetime;
  c_lastReview : option datetime;
  c_lastRating : option Z;
  c_deck_id : option string;
  c_deck_name : option string
}.

Record deck := Deck {
  d_id : string;
  d_name : string;
  d_source : string;
  d_cards : list card;
  d_created : datetime
}.

Record deck_meta := DeckMeta {
  m_id : string;
  m_name : string;
  m_source : option string;
  m_cardCount : Z;
  m_created : datetime
}.

Record stats := Stats {
  st_totalReviews : option Z;
  st_streak : option Z;
  st_lastStudy : option Z;          (* a date; [None] is null or no key *)
  st_activity : option (gmap Z Z)   (* date -> reviews that day *)
}.

Record root := Root {
  r_decks : list deck_meta;
  r_stats : stats
}.

(** What a file of the data directory holds. *)
Inductive doc :=
  | DeckDoc (d : deck)
  | IndexDoc (r : root).

(** [doc["cards"]], [doc["name"]], [doc["decks"]], [doc["stats"]]. *)
Definition doc_cards (d : doc) : outcome (list card) :=
  match d with DeckDoc d => Return (d_cards d) | IndexDoc _ => Raise (KeyError "cards") end.
Definition doc_name (d : doc) : outcome string :=
  match d with DeckDoc d => Return (d_name d) | IndexDoc _ => Raise (KeyError "name") end.
Definition doc_decks (d : doc) : outcome (list deck_meta) :=
  match d with IndexDoc r => Return (r_decks r) | DeckDoc _ => Raise (KeyError "decks") end.
Definition doc_stats (d : doc) : outcome stats :=
  match d with IndexDoc r => Return (r_stats r) | DeckDoc _ => Raise (KeyError "stats") end.

(** ** The store *)

Abbreviation store := (gmap string doc).

Definition index_path : string := "decks.json".
Definition deck_path (deck_id : string) : string := deck_id ++ ".json".

Definition default_index : root :=
  {| r_decks := [];
     r_stats := {| st_totalReviews := Some 0; st_streak := Some 0;
                   st_lastStudy := None; st_activity := None |} |}.

Definition load_decks (s : store) : doc :=
  match s !! index_path with
  | Some d => d
  | None => IndexDoc default_index
  end.

Definition save_decks (data : root) (s : store) : store :=
  <[index_path := IndexDoc data]> s.

Definition load_deck (s : store) (deck_id : string) : option doc :=
  s !! deck_path deck_id.

Definition save_deck (deck_id : string) (deck_data : deck) (s : store) : store :=
  <[deck_path deck_id := DeckDoc deck_data]> s.

(** ** Deck lifecycle: creation *)

Definition init_card (deck_id : string) (now : datetime) (i : nat) (fb : string * string) : card :=
  {| c_id := deck_id ++ "-" ++ pretty i;
     c_front := fb.1; c_back := fb.2;
     c_interval := Some 1; c_ease := Some 2.5%float; c_due := None; c_reps := Some 0;
     c_created := now; c_lastReview := None; c_lastRating := None;
     c_deck_id := None; c_deck_name := None |}.

(** [create_deck]; the identifier produced by [generate_deck_id], a slug of the
    name followed by a hash of the name and the clock, is an input. *)
Definition create_deck (deck_id : string) (now : datetime) (name source : string)
    (cards : list (string * string)) (s : store) : store * outcome deck :=
  let initialized_cards := imap (init_card deck_id now) cards in
  let deck_data :=
    {| d_id := deck_id; d_name := name; d_source := source;
       d_cards := initialized_cards; d_created := now |} in
  let s := save_deck deck_id deck_data s in
  match load_decks s with
  | DeckDoc _ => (s, Raise (KeyError "decks"))
  | IndexDoc data =>
      let entry :=
        {| m_id := deck_id; m_name := name; m_source := Some source;
           m_cardCount := Z.of_nat (length initialized_cards); m_created := now |} in
      (save_decks {| r_decks := r_decks data ++ [entry]; r_stats := r_stats data |} s,
       Return deck_data)
  end.

(** ** Query layer: due cards *)

Definition is_due (now : datetime) (c : card) : bool :=
  match c_due c with
  | None => true
  | Some t => t <=? now
  end.

Definition annotate (deck_id deck_name : string) (c : card) : card :=
  {| c_id := c_id c; c_front := c_front c; c_back := c_back c;
     c_interval := c_interval c; c_ease := c_ease c; c_due := c_due c;
     c_reps := c_reps c; c_created := c_created c;
     c_lastReview := c_lastReview c; c_lastRating := c_lastRating c;
     c_deck_id := Some deck_id; c_deck_name := Some deck_name |}.

(** The inner loop: the due cards of one deck are appended to [due_cards]. *)
Fixpoint scan_cards (now : datetime) (deck_id deck_name : string)
    (cards : list card) (due_cards : list card) : list card :=
  match cards with
  | [] => due_cards
  | c :: cards =>
      scan_cards now deck_id deck_name cards
        (if is_due now c then due_cards ++ [annotate deck_id deck_name c] else due_cards)
  end.

Definition scan_deck (now : datetime) (deck_id : string) (d : doc)
    (due_cards : list card) : outcome (list card) :=
  match d with
  | DeckDoc dk => Return (scan_cards now deck_id (d_name dk) (d_cards dk) due_cards)
  | IndexDoc _ => Raise (KeyError "cards")
  end.

(** The outer loop over the index entries. *)
Fixpoint scan_index (now : datetime) (s : store) (metas : list deck_meta)
    (due_cards : list card) : outcome (list card) :=
  match metas with
  | [] => Return due_cards
  | deck_meta :: metas =>
      match load_deck s (m_id deck_meta) with
      | Some d =>
          due_cards ← scan_deck now (m_id deck_meta) d due_cards;
          scan_index now s metas due_cards
      | None => scan_index now s metas due_cards
      end
  end.

(** Python's truth value of an optional string argument. *)
Definition truthy (x : option string) : option string :=
  match x with
  | Some "" => None
  | x => x
  end.

Definition get_due_cards (now : datetime) (deck_id : option string) (s : store)
    : outcome (list card) :=
  match truthy deck_id with
  | Some deck_id =>
      match load_deck s deck_id with
      | Some d => scan_deck now deck_id d []
      | None => Return []
      end
  | None =>
      metas ← doc_decks (load_decks s);
      scan_index now s metas []
  end.

(** ** Card scheduler *)

(** Lines 189-213 of [update_card]: the new [(interval, ease, reps)]. *)
Definition sm2 (interval : Z) (ease : float) (reps : Z) (rating : Z)
    : outcome (Z * float * Z) :=
  if rating =? 0 then
    Return (1, py_max 1.3 (ease - 0.2), 0)
  else
    let reps := reps + 1 in
    if rating =? 1 then
      f ← py_float interval;
      k ← py_int (f * 1.2);
      Return (Z.max 1 k, py_max 1.3 (ease - 0.15), reps)
    else if rating =? 2 then
      if reps =? 1 then Return (1, ease, reps)
      else if reps =? 2 then Return (6, ease, reps)
      else
        f ← py_float interval;
        k ← py_int (f * ease);
        Return (k, ease, reps)
    else if rating =? 3 then
      interval ← (if reps =? 1 then Return 4
                  else f ← py_float interval; py_int (f * ease * 1.3));
      Return (interval, (ease + 0.15)%float, reps)
    else
      Return (interval, ease, reps).

(** Lines 185-221: the reviewed card. *)
Definition review_card (now : datetime) (c : card) (rating : Z) : outcome card :=
  let interval := default 1 (c_interval c) in
  let ease := default 2.5%float (c_ease c) in
  let reps := default 0 (c_reps c) in
  '(interval, ease, reps) ← sm2 interval ease reps rating;
  due ← add_days now interval;
  Return
    {| c_id := c_id c; c_front := c_front c; c_back := c_back c;
       c_interval := Some interval; c_ease := Some (py_round2 ease);
       c_due := Some due; c_reps := Some reps; c_created := c_created c;
       c_lastReview := Some now; c_lastRating := Some rating;
       c_deck_id := c_deck_id c; c_deck_name := c_deck_name c |}.

(** The search loop of [update_card]: the first card with the given id. *)
Fixpoint find_card (card_id : string) (i : nat) (cards : list card) : option (nat * card) :=
  match cards with
  | [] => None
  | c :: cards =>
      if String.eqb (c_id c) card_id then Some (i, c)
      else find_card card_id (S i) cards
  end.

(** Lines 227-246: the statistics after a review on day [today]. *)
Definition update_stats (today : Z) (st : stats) : stats :=
  let totalReviews := default 0 (st_totalReviews st) + 1 in
  let last_study := st_lastStudy st in
  let '(streak, last_study) :=
    match last_study with
    | Some last_date =>
        if last_date =? today then (st_streak st, last_study)
        else
          (if today - last_date =? 1 then Some (default 0 (st_streak st) + 1)
           else if 1 <? today - last_date then Some 1
           else st_streak st,
           Some today)
    | None => (Some 1, Some today)
    end in
  let activity := default ∅ (st_activity st) in
  {| st_totalReviews := Some totalReviews;
     st_streak := streak;
     st_lastStudy := last_study;
     st_activity := Some (<[today := default 0 (activity !! today) + 1]> activity) |}.

Definition update_card (now : datetime) (deck_id card_id : string) (rating : Z)
    (s : store) : store * outcome card :=
  match load_deck s deck_id with
  | None => (s, Raise (ValueError ("Deck not found: " ++ deck_id)))
  | Some (IndexDoc _) => (s, Raise (KeyError "cards"))
  | Some (DeckDoc dk) =>
      match find_card card_id 0 (d_cards dk) with
      | None => (s, Raise (ValueError ("Card not found: " ++ card_id)))
      | Some (card_idx, c) =>
          match review_card now c rating with
          | Raise e => (s, Raise e)
          | Return c =>
              let dk :=
                {| d_id := d_id dk; d_name := d_name dk; d_source := d_source dk;
                   d_cards := <[card_idx := c]> (d_cards dk); d_created := d_created dk |} in
              let s := save_deck deck_id dk s in
              match load_decks s with
              | DeckDoc _ => (s, Raise (KeyError "stats"))
              | IndexDoc data =>
                  let data :=
                    {| r_decks := r_decks data;
                       r_stats := update_stats (date_of now) (r_stats data) |} in
                  (save_decks data s, Return c)
              end
          end
      end
  end.

(** ** Query layer: dashboard *)

Record deck_summary := DeckSummary {
  s_id : string;
  s_name : string;
  s_source : string;
  s_cardCount : Z;
  s_due : Z;
  s_new : Z;
  s_mastered : Z
}.

Record dashboard := Dashboard {
  totalCards : Z;
  dueToday : Z;
  mastered : Z;
  streak : Z;
  decks : list deck_summary;
  activity : gmap Z Z
}.

(** The counters of the card loop: [total_cards], [due_today], [mastered],
    and the per-deck [deck_due], [deck_new], [deck_mastered]. *)
Record counters := Counters {
  total_cards : Z; due_today : Z; n_mastered : Z;
  deck_due : Z; deck_new : Z; deck_mastered : Z
}.

Definition count_card (now : datetime) (k : counters) (c : card) : counters :=
  let total_cards := total_cards k + 1 in
  let '(deck_new, deck_due, due_today) :=
    match c_due c with
    | None => (deck_new k + 1, deck_due k, due_today k + 1)
    | Some t =>
        if t <=? now then (deck_new k, deck_due k + 1, due_today k + 1)
        else (deck_new k, deck_due k, due_today k)
    end in
  let '(deck_mastered, mastered) :=
    if 21 <? default 1 (c_interval c) then (deck_mastered k + 1, n_mastered k + 1)
    else (deck_mastered k, n_mastered k) in
  {| total_cards := total_cards; due_today := due_today; n_mastered := mastered;
     deck_due := deck_due; deck_new := deck_new; deck_mastered := deck_mastered |}.

(** The deck loop; [tot] carries [total_cards], [due_today], [mastered]. *)
Fixpoint summarize (now : datetime) (s : store) (metas : list deck_meta)
    (tot : Z * Z * Z) (deck_summaries : list deck_summary)
    : outcome (Z * Z * Z * list deck_summary) :=
  match metas with
  | [] => Return (tot, deck_summaries)
  | deck_meta :: metas =>
      match load_deck s (m_id deck_meta) with
      | None => summarize now s metas tot deck_summaries
      | Some (IndexDoc _) => Raise (KeyError "cards")
      | Some (DeckDoc dk) =>
          let k0 :=
            {| total_cards := tot.1.1; due_today := tot.1.2; n_mastered := tot.2;
               deck_due := 0; deck_new := 0; deck_mastered := 0 |} in
          let k := fold_left (count_card now) (d_cards dk) k0 in
          summarize now s metas (total_cards k, due_today k, n_mastered k)
            (deck_summaries ++
             [{| s_id := m_id deck_meta; s_name := m_name deck_meta;
                 s_source := default "manual" (m_source deck_meta);
                 s_cardCount := Z.of_nat (length (d_cards dk));
                 s_due := deck_due k; s_new := deck_new k;
                 s_mastered := deck_mastered k |}])
      end
  end.

Definition get_dashboard_data (now : datetime) (s : store) : outcome dashboard :=
  let data := load_decks s in
  metas ← doc_decks data;
  '(tot, deck_summaries) ← summarize now s metas (0, 0, 0) [];
  st ← doc_stats data;
  Return
    {| totalCards := tot.1.1; dueToday := tot.1.2; mastered := tot.2;
       streak := default 0 (st_streak st);
       decks := deck_summaries;
       activity := default ∅ (st_activity st) |}.

(** ** Deck lifecycle: deletion *)

Definition delete_deck (deck_id : string) (s : store) : store * outcome bool :=
  let s := delete (deck_path deck_id) s in
  match load_decks s with
  | DeckDoc _ => (s, Raise (KeyError "decks"))
  | IndexDoc data =>
      let data :=
        {| r_decks := filter (λ d, m_id d ≠ deck_id) (r_decks data);
           r_stats := r_stats data |} in
      (save_decks data s, Return true)
  end.

(** ** Real values of binary64 numbers (used to state rounding bounds) *)

(** [2^e] as a real, for any integer [e]. *)
Definition bpow2 (e : Z) : R :=
  if 0 <=? e then IZR (2 ^ e) else (/ IZR (2 ^ (- e)))%R.

(** The real value of a finite number; zeros, infinities and NaN map to 0. *)
Definition SF2R (x : spec_float) : R :=
  match x with
  | S754_finite s m e => (IZR (cond_Zopp s (Z.pos m)) * bpow2 e)%R
  | _ => 0%R
  end.

(** A positive normal binary64 number: 53 significant bits. *)
Definition normal53 (m : positive) (e : Z) : Prop :=
  Z.pos (digits2_pos m) = prec ∧ emin ≤ e ≤ emax - prec.

(** Strictly negative numbers. *)
Definition sf_neg (x : spec_float) : bool :=
  match x with
  | S754_finite true _ _ | S754_infinity true => true
  | _ => false
  end.

(** The relative spacing of binary64 numbers, [2^-52]. *)
Definition eps : R := (/ IZR (2 ^ 52))%R.

(** ** Definitions used to state the properties *)

(** The four ratings of the SM-2 table. *)
Inductive rating := Again | Hard | Good | Easy.

Definition rating_value (r : rating) : Z :=
  match r with Again => 0 | Hard => 1 | Good => 2 | Easy => 3 end.

Definition valid_rating (r : Z) : Prop := 0 ≤ r ≤ 3.

(** The SM-2 table in the words of the specification; [ipart] is the
    integer part it takes of a product ([floor] there). *)
Definition sm2_table (ipart : float → outcome Z)
    (interval : Z) (ease : float) (reps : Z) (r : rating) : outcome (Z * float * Z) :=
  match r with
  | Again => Return (1, py_max 1.3 (ease - 0.2), 0)
  | Hard =>
      f ← py_float interval;
      k ← ipart (f * 1.2)%float;
      Return (Z.max 1 k, py_max 1.3 (ease - 0.15), reps + 1)
  | Good =>
      i ← (if reps + 1 =? 1 then Return 1
           else if reps + 1 =? 2 then Return 6
           else f ← py_float interval; ipart (f * ease)%float);
      Return (i, ease, reps + 1)
  | Easy =>
      i ← (if reps + 1 =? 1 then Return 4
           else f ← py_float interval; ipart (f * ease * 1.3)%float);
      Return (i, (ease + 0.15)%float, reps + 1)
  end.

(** The scheduling values [update_card] reads from a card. *)
Definition interval_of (c : card) : Z := default 1 (c_interval c).
Definition ease_of (c : card) : float := default 2.5%float (c_ease c).
Definition reps_of (c : card) : Z := default 0 (c_reps c).

(** The invariant of the data model: [ease >= 1.3] and [interval >= 1]. *)
Definition card_inv (c : card) : Prop :=
  PrimFloat.leb 1.3 (ease_of c) = true ∧ 1 ≤ interval_of c.

(** A card is due when [due] is null or not after [now]. *)
Definition due_pred (now : datetime) (c : card) : Prop :=
  c_due c = None ∨ ∃ t, c_due c = Some t ∧ t ≤ now.

(** The due cards of one deck, in card order, with the deck's id and name. *)
Definition due_of (now : datetime) (deck_id : string) (dk : deck) : list card :=
  annotate deck_id (d_name dk) <$> filter (λ c, is_due now c = true) (d_cards dk).

(** The due cards of the decks the entries name, in entry order; an entry
    without a deck record contributes nothing. *)
Definition due_of_index (now : datetime) (s : store) (metas : list deck_meta) : list card :=
  metas ≫= λ m,
    match load_deck s (m_id m) with
    | Some (DeckDoc dk) => due_of now (m_id m) dk
    | _ => []
    end.

(** An index entry is usable when its deck record is missing or is a deck. *)
Definition entry_ok (s : store) (m : deck_meta) : Prop :=
  match load_deck s (m_id m) with
  | Some (IndexDoc _) => False
  | _ => True
  end.

(** The index file is missing or holds an index. *)
Definition index_ok (s : store) : Prop :=
  match s !! index_path with
  | Some (DeckDoc _) => False
  | _ => True
  end.

(** The index and the statistics a store holds. *)
Definition index_of (s : store) : root :=
  match load_decks s with
  | IndexDoc r => r
  | DeckDoc _ => default_index
  end.
Definition stats_of (s : store) : stats := r_stats (index_of s).

(** [stats.get("streak", 0)] and [activity.get(day, 0)]. *)
Definition streak_of (st : stats) : Z := default 0 (st_streak st).
Definition activity_of (st : stats) (day : Z) : Z :=
  default 0 (default ∅ (st_activity st) !! day).

(** Successive reviews of one card, each at its own time. *)
Fixpoint review_seq (c : card) (log : list (datetime * Z)) : outcome card :=
  match log with
  | [] => Return c
  | (now, rating) :: log => c ← review_card now c rating; review_seq c log
  end.



(** ** A sample store *)

Definition t0 : datetime := 738000 * day_us.

Definition sample_store : store :=
  (create_deck "bio-1a2b3c" t0 "Bio" "manual" [("cell", "unit of life"); ("dna", "genome")] ∅).1.

Definition sample_deck : deck :=
  {| d_id := "bio-1a2b3c"; d_name := "Bio"; d_source := "manual";
     d_cards := imap (init_card "bio-1a2b3c" t0) [("cell", "unit of life"); ("dna", "genome")];
     d_created := t0 |}.

Definition sample_card : card := init_card "bio-1a2b3c" t0 0 ("cell", "unit of life").

(** The first card after a Good review at [t0] and one a day later. *)
Definition sample_reviewed : store :=
  (update_card (t0 + day_us) "bio-1a2b3c" "bio-1a2b3c-0" 2
     (update_card t0 "bio-1a2b3c" "bio-1a2b3c-0" 2 sample_store).1).1.

Definition sample_card2 : card :=
  {| c_id := "bio-1a2b3c-0"; c_front := "cell"; c_back := "unit of life";
     c_interval := Some 6; c_ease := Some 2.5%float;
     c_due := Some (t0 + 7 * day_us); c_reps := Some 2; c_created := t0;
     c_lastReview := Some (t0 + day_us); c_lastRating := Some 2;
     c_deck_id := None; c_deck_name := None |}.

Definition sample_card3 : card :=
  {| c_id := "bio-1a2b3c-0"; c_front := "cell"; c_back := "unit of life";
     c_interval := Some 15; c_ease := Some 2.5%float;
     c_due := Some (t0 + 22 * day_us); c_reps := Some 3; c_created := t0;
     c_lastReview := Some (t0 + 7 * day_us); c_lastRating := Some 2;
     c_deck_id := None; c_deck_name := None |}.

(** A second deck whose record was lost: its index entry is an orphan. *)
Definition sample_orphan : store :=
  delete (deck_path "geo-4d5e6f")
    (create_deck "bio-1a2b3c" t0 "Bio" "manual" [("cell", "unit of life"); ("dna", "genome")]
       (create_deck "geo-4d5e6f" t0 "Geo" "manual" [("alps", "mountains")] ∅).1).1.


Definition bio_meta : deck_meta :=
  {| m_id := "bio-1a2b3c"; m_name := "Bio"; m_source := Some "manual";
     m_cardCount := 2; m_created := t0 |}.

Definition sample_deck2 : deck :=
  {| d_id := "bio-1a2b3c"; d_name := "Bio"; d_source := "manual";
     d_cards := [sample_card2; init_card "bio-1a2b3c" t0 1 ("dna", "genome")];
     d_created := t0 |}.

(** ** Deck lifecycle: identifiers, listing and export *)

(** [generate_deck_id]: the slug [name.lower().replace(" ", "-")[:30]] and the
    six hexadecimal digits [md5(name + clock).hexdigest()[:6]] are inputs;
    the identifier is their f-string ["{slug}-{hash_suffix}"]. *)
Definition generate_deck_id (slug hash_suffix : string) : string :=
  slug ++ "-" ++ hash_suffix.

Definition list_decks (s : store) : outcome (list deck_meta) :=
  doc_decks (load_decks s).

Record question := Question {
  q_question : string;
  q_options : list string;
  q_correct : Z;
  q_explanation : string
}.

(** The two JavaScript texts [export_for_canvas] returns, by the JSON values
    they embed: [DECK_TITLE] and [CARDS], or [QUIZ_TITLE] and [QUESTIONS]. *)
Inductive canvas_js :=
  | FlashcardsJs (title : string) (cards : list card)
  | QuizJs (title : string) (questions : list question).

(** The loop of the quiz branch: one question per card, in card order. *)
Definition quiz_question (c : card) : question :=
  {| q_question := c_front c;
     q_options := [c_back c; "I don't know"];
     q_correct := 0;
     q_explanation := "" |}.

Definition export_for_canvas (deck_id template : string) (s : store) : outcome canvas_js :=
  match load_deck s deck_id with
  | None => Raise (ValueError ("Deck not found: " ++ deck_id))
  | Some d =>
      if String.eqb template "flashcards" then
        cards ← doc_cards d;
        name ← doc_name d;
        Return (FlashcardsJs name cards)
      else if String.eqb template "quiz" then
        cards ← doc_cards d;
        let questions := quiz_question <$> cards in
        name ← doc_name d;
        Return (QuizJs name questions)
      else Raise (ValueError ("Unknown template: " ++ template))
  end.

(** ** Definitions used to state further properties *)

(** The cards of the decks the index entries name, in entry order. *)
Definition cards_of_index (s : store) (metas : list deck_meta) : list card :=
  metas ≫= λ m,
    match load_deck s (m_id m) with
    | Some (DeckDoc dk) => d_cards dk
    | _ => []
    end.

(** The index entries that have a deck record, each with its deck. *)
Definition backed_entries (s : store) (metas : list deck_meta) : list (deck_meta * deck) :=
  metas ≫= λ m,
    match load_deck s (m_id m) with
    | Some (DeckDoc dk) => [(m, dk)]
    | _ => []
    end.

Definition is_mastered (c : card) : bool := 21 <? interval_of c.
Definition is_new (c : card) : bool :=
  match c_due c with None => true | Some _ => false end.

Definition bit (b : bool) : Z := if b then 1 else 0.

Definition count (P : card → bool) (cards : list card) : Z :=
  Z.of_nat (length (filter (λ c, P c = true) cards)).

(** The sum of the daily counts of the activity histogram. *)
Definition activity_total (st : stats) : Z :=
  map_fold (λ _ v acc, v + acc) 0 (default ∅ (st_activity st)).

(** The deck [create_deck] writes. *)
Definition new_deck (deck_id : string) (now : datetime) (name source : string)
    (cards : list (string * string)) : deck :=
  {| d_id := deck_id; d_name := name; d_source := source;
     d_cards := imap (init_card deck_id now) cards; d_created := now |}.

(** The index entry [create_deck] appends. *)
Definition new_entry (deck_id : string) (now : datetime) (name source : string)
    (cards : list (string * string)) : deck_meta :=
  {| m_id := deck_id; m_name := name; m_source := Some source;
     m_cardCount := Z.of_nat (length cards); m_created := now |}.

(** A card scheduled ten thousand years ahead. *)
Definition far_card : card :=
  {| c_id := "far-0"; c_front := "q"; c_back := "a";
     c_interval := Some 3000000; c_ease := Some 2.5%float;
     c_due := Some (t0 + 3000000 * day_us); c_reps := Some 9; c_created := t0;
     c_lastReview := Some t0; c_lastRating := Some 2;
     c_deck_id := None; c_deck_name := None |}.

Definition far_deck : deck :=
  {| d_id := "far-0a1b2c"; d_name := "Far"; d_source := "manual";
     d_cards := [far_card]; d_created := t0 |}.

Definition far_store : store := save_deck "far-0a1b2c" far_deck ∅.

(** The dashboard line of one deck, by counting. *)
Definition summary_of (now : datetime) (e : deck_meta * deck) : deck_summary :=
  {| s_id := m_id e.1; s_name := m_name e.1;
     s_source := default "manual" (m_source e.1);
     s_cardCount := Z.of_nat (length (d_cards e.2));
     s_due := count (is_due now) (d_cards e.2) - count is_new (d_cards e.2);
     s_new := count is_new (d_cards e.2);
     s_mastered := count is_mastered (d_cards e.2) |}.

(** The statistics are consistent: the review total is the sum of the daily
    counts, the streak never exceeds it, and once a day of study is recorded
    the streak is at least one. *)
Definition stats_inv (st : stats) : Prop :=
  default 0 (st_totalReviews st) = activity_total st
  ∧ 0 ≤ streak_of st ≤ default 0 (st_totalReviews st)
  ∧ (is_Some (st_lastStudy st) → 1 ≤ streak_of st).

(** The question the quiz export builds from a front and a back. *)
Definition recall_question (fb : string * string) : question :=
  {| q_question := fb.1; q_options := [fb.2; "I don't know"];
     q_correct := 0; q_explanation := "" |}.

(** ** Python floats: sample values *)

Example py_round2_2675 : py_round2 2.675 = 2.67%float.
Proof. vm_compute. reflexivity. Qed.

Example py_round2_0125 : py_round2 0.125 = 0.12%float.
Proof. vm_compute. reflexivity. Qed.

Example py_round2_0375 : py_round2 0.375 = 0.38%float.
Proof. vm_compute. reflexivity. Qed.

Example py_round2_1005 : py_round2 1.005 = 1%float.
Proof. vm_compute. reflexivity. Qed.

Example py_round2_neg : py_round2 (-0.001) = (-0)%float.
Proof. vm_compute. reflexivity. Qed.

Example py_round2_big : py_round2 1e300 = 1e300%float.
Proof. vm_compute. reflexivity. Qed.

Example py_round2_mid : py_round2 123456789012345.67 = 123456789012345.67%float.
Proof. vm_compute. reflexivity. Qed.

Example py_float_big : py_float (2^53 + 1) = Return 9007199254740992%float.
Proof. vm_compute. reflexivity. Qed.

Example py_float_big3 : py_float (2^53 + 3) = Return 9007199254740996%float.
Proof. vm_compute. reflexivity. Qed.

Example py_int_m25 : py_int (-2.5) = Return (-2).
Proof. vm_compute. reflexivity. Qed.

Example py_floor_m25 : py_floor (-2.5) = Return (-3).
Proof. vm_compute. reflexivity. Qed.

Example mul_10_23 : py_int (10 * 2.3) = Return 23.
Proof. vm_compute. reflexivity. Qed.



(** * Binary64 rounding facts

    Lower bounds on the correctly rounded results of [SpecFloat], which the
    primitive operations are specified by. *)

Lemma digits2_pos_log2 p : Z.pos (digits2_pos p) = Z.log2 (Z.pos p) + 1.
Proof.
  induction p as [p IH|p IH|]; simpl; try reflexivity.
  - rewrite Pos2Z.inj_succ, IH. destruct p; simpl; lia.
  - rewrite Pos2Z.inj_succ, IH. destruct p; simpl; lia.
Qed.

Lemma digits2_pos_bounds p :
  2 ^ (Z.pos (digits2_pos p) - 1) ≤ Z.pos p < 2 ^ Z.pos (digits2_pos p).
Proof.
  rewrite digits2_pos_log2.
  replace (Z.log2 (Z.pos p) + 1 - 1) with (Z.log2 (Z.pos p)) by lia.
  assert (H := Z.log2_spec (Z.pos p) ltac:(lia)).
  rewrite <- Z.add_1_r in H. lia.
Qed.

Lemma digits2_pos_unique p k :
  2 ^ (k - 1) ≤ Z.pos p < 2 ^ k → Z.pos (digits2_pos p) = k.
Proof.
  intros H. rewrite digits2_pos_log2.
  assert (0 < k). { destruct (Z.lt_trichotomy k 0) as [?|[->|?]]; try lia.
    rewrite (Z.pow_neg_r 2 k) in H by lia. lia. }
  rewrite (Z.log2_unique (Z.pos p) (k - 1)); try lia.
  replace (Z.succ (k - 1)) with k by lia. lia.
Qed.

Lemma shr_1_m mrs : 0 ≤ shr_m mrs → shr_m (shr_1 mrs) = shr_m mrs / 2.
Proof.
  destruct mrs as [m r s]. simpl. intros Hm.
  destruct m as [|[p|p|]|p]; simpl; try lia; try reflexivity.
  - rewrite Pos2Z.inj_xI. apply (Z.div_unique _ _ _ 1); lia.
  - rewrite Pos2Z.inj_xO. apply (Z.div_unique _ _ _ 0); lia.
Qed.

Lemma pow2_xO p : 2 ^ Z.pos p~0 = 2 ^ Z.pos p * 2 ^ Z.pos p.
Proof. rewrite Pos2Z.inj_xO, <- Z.pow_add_r by lia. f_equal. lia. Qed.

Lemma pow2_xI p : 2 ^ Z.pos p~1 = 2 * (2 ^ Z.pos p * 2 ^ Z.pos p).
Proof.
  rewrite Pos2Z.inj_xI, <- Z.pow_add_r by lia.
  rewrite <- (Z.pow_succ_r 2) by lia. f_equal. lia.
Qed.

Lemma shr_m_iter p mrs :
  0 ≤ shr_m mrs → shr_m (SpecFloat.iter_pos shr_1 p mrs) = shr_m mrs / 2 ^ Z.pos p.
Proof.
  revert mrs. induction p as [p IH|p IH|]; intros mrs Hm; simpl SpecFloat.iter_pos.
  - assert (H1 : 0 ≤ shr_m (shr_1 mrs)) by (rewrite shr_1_m by done; apply Z.div_pos; lia).
    assert (H2 : 0 ≤ shr_m (SpecFloat.iter_pos shr_1 p (shr_1 mrs)))
      by (rewrite IH by done; apply Z.div_pos; lia).
    rewrite IH, IH, shr_1_m by done.
    rewrite !Z.div_div by lia. f_equal. rewrite pow2_xI. lia.
  - assert (H2 : 0 ≤ shr_m (SpecFloat.iter_pos shr_1 p mrs))
      by (rewrite IH by done; apply Z.div_pos; lia).
    rewrite IH, IH by done.
    rewrite !Z.div_div by lia. f_equal. rewrite pow2_xO. lia.
  - rewrite shr_1_m by done. reflexivity.
Qed.

Lemma loc_of_shr_record_of_loc m l : loc_of_shr_record (shr_record_of_loc m l) = l.
Proof. destruct l as [|[]]; reflexivity. Qed.

Lemma shr_m_of_loc m l : shr_m (shr_record_of_loc m l) = m.
Proof. destruct l as [|[]]; reflexivity. Qed.

Lemma round_nearest_even_cases m l :
  round_nearest_even m l = m ∨ round_nearest_even m l = m + 1.
Proof. destruct l as [|[]]; simpl; auto. destruct (Z.even m); auto. Qed.

Lemma prec_eq : prec = 53. Proof. reflexivity. Qed.
Lemma emax_eq : emax = 1024. Proof. reflexivity. Qed.
Lemma emin_eq : SpecFloat.emin prec emax = -1074. Proof. reflexivity. Qed.

Lemma fexp_normal e : -1074 ≤ e - 53 → fexp prec emax e = e - 53.
Proof. intros H. unfold fexp. rewrite emin_eq, prec_eq. lia. Qed.

Lemma shr_nonneg m l e n :
  0 ≤ m → 0 ≤ n →
  ∃ mrs, shr (shr_record_of_loc m l) e n = (mrs, e + n) ∧ shr_m mrs = m / 2 ^ n.
Proof.
  intros Hm Hn. destruct n as [|p|p]; try lia.
  - exists (shr_record_of_loc m l). simpl. rewrite shr_m_of_loc, Z.div_1_r.
    split; [f_equal; lia | done].
  - eexists. split; [reflexivity|]. rewrite shr_m_iter; rewrite shr_m_of_loc; done.
Qed.

Lemma Zdigits2_pos m : 0 < m → ∃ p, m = Z.pos p ∧ Zdigits2 m = Z.pos (digits2_pos p).
Proof. destruct m; try lia. eauto. Qed.

(** Rounding a wide mantissa in the normal range: the result is infinite or
    a normal number whose mantissa is the truncated one or its successor. *)
Lemma binary_round_aux_spec s mx ex lx :
  0 < mx → 53 ≤ Zdigits2 mx → -1074 ≤ Zdigits2 mx + ex - 53 →
  let n := Zdigits2 mx - 53 in
  let q := mx / 2 ^ n in
  binary_round_aux prec emax s mx ex lx = S754_infinity s ∨
  ∃ m e, binary_round_aux prec emax s mx ex lx = S754_finite s m e
         ∧ normal53 m e
         ∧ ex + n ≤ e ≤ ex + n + 1
         ∧ (Z.pos m * 2 ^ (e - (ex + n)) = q ∨ Z.pos m * 2 ^ (e - (ex + n)) = q + 1).
Proof.
  intros Hmx Hd Hrange n q.
  destruct (Zdigits2_pos mx Hmx) as (p & -> & Hdig).
  assert (Hb := digits2_pos_bounds p). rewrite <- Hdig in Hb.
  set (d := Zdigits2 (Z.pos p)) in *.
  assert (Hn : 0 ≤ n) by (unfold n; lia).
  assert (Hq : 2 ^ 52 ≤ q < 2 ^ 53).
  { unfold q. split.
    - apply Z.div_le_lower_bound; [lia|].
      rewrite <- Z.pow_add_r by lia. replace (n + 52) with (d - 1) by (unfold n; lia). lia.
    - apply Z.div_lt_upper_bound; [lia|].
      rewrite <- Z.pow_add_r by lia. replace (n + 53) with d by (unfold n; lia). lia. }
  unfold binary_round_aux.
  assert (E1 : ∃ mrs, shr_fexp prec emax (Z.pos p) ex lx = (mrs, ex + n) ∧ shr_m mrs = q).
  { unfold shr_fexp. fold d. rewrite fexp_normal by lia.
    replace (d + ex - 53 - ex) with n by (unfold n; lia).
    apply shr_nonneg; lia. }
  destruct E1 as (mrs & -> & Hm). rewrite Hm.
  set (m1 := round_nearest_even q (loc_of_shr_record mrs)).
  assert (Hm1 : m1 = q ∨ m1 = q + 1) by apply round_nearest_even_cases.
  clearbody m1. clear Hm mrs.
  destruct (Zdigits2_pos m1 ltac:(lia)) as (p1 & -> & Hd1).
  destruct (Z.eq_dec (Z.pos p1) (2 ^ 53)) as [Heq|Hne].
  - (* the mantissa overflowed to 2^53: one more shift *)
    assert (E2 : shr_fexp prec emax (Z.pos p1) (ex + n) loc_Exact
                 = ({| shr_m := 2 ^ 52; shr_r := false; shr_s := false |}, ex + n + 1)).
    { unfold shr_fexp. rewrite Hd1.
      rewrite (digits2_pos_unique p1 54) by (rewrite Heq; cbn; lia).
      rewrite fexp_normal by lia.
      replace (54 + (ex + n) - 53 - (ex + n)) with 1 by lia.
      rewrite Heq. reflexivity. }
    rewrite E2. cbn [shr_m]. change (2 ^ 52) with (Z.pos (2 ^ 52)%positive).
    cbv iota beta.
    destruct (ex + n + 1 <=? emax - prec) eqn:Hle; [right|left; reflexivity].
    eexists _, _. split; [reflexivity|].
    apply Z.leb_le in Hle. rewrite emax_eq, prec_eq in Hle.
    split; [split; [reflexivity | rewrite emin_eq, emax_eq, prec_eq; lia]|].
    split; [lia|]. right.
    replace (ex + n + 1 - (ex + n)) with 1 by lia.
    change (Z.pos (2 ^ 52) * 2 ^ 1) with (2 ^ 53). lia.
  - assert (E2 : shr_fexp prec emax (Z.pos p1) (ex + n) loc_Exact
                 = ({| shr_m := Z.pos p1; shr_r := false; shr_s := false |}, ex + n)).
    { unfold shr_fexp. rewrite Hd1.
      rewrite (digits2_pos_unique p1 53) by lia.
      rewrite fexp_normal by lia.
      replace (53 + (ex + n) - 53 - (ex + n)) with 0 by lia.
      reflexivity. }
    rewrite E2. cbn [shr_m]. cbv iota beta.
    destruct (ex + n <=? emax - prec) eqn:Hle; [right|left; reflexivity].
    eexists _, _. split; [reflexivity|].
    apply Z.leb_le in Hle. rewrite emax_eq, prec_eq in Hle.
    split; [unfold normal53; rewrite emin_eq, emax_eq, prec_eq; split; [apply digits2_pos_unique; lia | lia]|].
    split; [lia|].
    replace (ex + n - (ex + n)) with 0 by lia. rewrite Z.mul_1_r.
    destruct Hm1; [left|right]; lia.
Qed.

(** *** Powers of two as reals *)

Lemma IZR_pow2_pos' k : 0 ≤ k → (0 < IZR (2 ^ k))%R.
Proof. intros. apply IZR_lt, Z.pow_pos_nonneg; lia. Qed.

Lemma bpow2_shift K e :
  0 ≤ K → 0 ≤ e + K → bpow2 e = (IZR (2 ^ (e + K)) / IZR (2 ^ K))%R.
Proof.
  intros HK HeK. unfold bpow2.
  assert (H1 := IZR_pow2_pos' K HK).
  destruct (0 <=? e) eqn:He.
  - apply Z.leb_le in He. rewrite Z.pow_add_r, mult_IZR by lia. field. lra.
  - apply Z.leb_gt in He.
    assert (H2 := IZR_pow2_pos' (- e) ltac:(lia)).
    assert (H3 := IZR_pow2_pos' (e + K) HeK).
    assert (E : 2 ^ K = 2 ^ (e + K) * 2 ^ (- e))
      by (rewrite <- Z.pow_add_r by lia; f_equal; lia).
    rewrite E, mult_IZR. field. lra.
Qed.

Lemma bpow2_nonneg_eq e : 0 ≤ e → bpow2 e = IZR (2 ^ e).
Proof. intros H. unfold bpow2. apply Z.leb_le in H. rewrite H. reflexivity. Qed.

Lemma bpow2_pos e : (0 < bpow2 e)%R.
Proof.
  unfold bpow2. destruct (0 <=? e) eqn:He.
  - apply IZR_pow2_pos', Z.leb_le, He.
  - apply Rinv_0_lt_compat, IZR_pow2_pos'. apply Z.leb_gt in He. lia.
Qed.

Lemma bpow2_add a b : bpow2 (a + b) = (bpow2 a * bpow2 b)%R.
Proof.
  rewrite (bpow2_shift (Z.abs a) a), (bpow2_shift (Z.abs b) b) by lia.
  rewrite (bpow2_shift (Z.abs a + Z.abs b) (a + b)) by lia.
  assert (H1 := IZR_pow2_pos' (Z.abs a) ltac:(lia)).
  assert (H2 := IZR_pow2_pos' (Z.abs b) ltac:(lia)).
  replace (a + b + (Z.abs a + Z.abs b)) with ((a + Z.abs a) + (b + Z.abs b)) by lia.
  rewrite (Z.pow_add_r 2 (a + Z.abs a)), (Z.pow_add_r 2 (Z.abs a)), !mult_IZR by lia.
  generalize dependent (IZR (2 ^ Z.abs a)). generalize dependent (IZR (2 ^ Z.abs b)).
  generalize (IZR (2 ^ (a + Z.abs a))) (IZR (2 ^ (b + Z.abs b))).
  intros x y u Hu v Hv. field. lra.
Qed.

Lemma bpow2_le a b : a ≤ b → (bpow2 a <= bpow2 b)%R.
Proof.
  intros H. replace b with (a + (b - a)) by lia. rewrite bpow2_add.
  rewrite (bpow2_nonneg_eq (b - a)) by lia.
  assert (H1 := bpow2_pos a).
  assert (1 <= IZR (2 ^ (b - a)))%R.
  { apply IZR_le. assert (0 < 2 ^ (b - a)) by (apply Z.pow_pos_nonneg; lia). lia. }
  nra.
Qed.

Lemma eps_pos : (0 < eps)%R.
Proof. unfold eps. apply Rinv_0_lt_compat, IZR_pow2_pos'. lia. Qed.

(** The real-valued reading of [binary_round_aux_spec]: the result is at
    least the truncated value, hence within a factor [1 + eps] of the exact one. *)
Lemma binary_round_aux_real s mx ex lx :
  0 < mx → 53 ≤ Zdigits2 mx → -1074 ≤ Zdigits2 mx + ex - 53 →
  binary_round_aux prec emax s mx ex lx = S754_infinity s ∨
  ∃ m e, binary_round_aux prec emax s mx ex lx = S754_finite s m e
         ∧ normal53 m e
         ∧ Zdigits2 mx + ex - 53 ≤ e
         ∧ (IZR mx * bpow2 ex <= (1 + eps) * (IZR (Z.pos m) * bpow2 e))%R.
Proof.
  intros Hmx Hd Hrange.
  destruct (binary_round_aux_spec s mx ex lx Hmx Hd Hrange)
    as [H|(m & e & H & Hn & He & Hm)]; [left; exact H|right].
  exists m, e. split; [exact H|]. split; [exact Hn|]. split; [lia|].
  set (n := Zdigits2 mx - 53) in *. set (q := mx / 2 ^ n) in *.
  assert (Hn0 : 0 ≤ n) by (unfold n; lia).
  assert (Hp : 0 < 2 ^ n) by (apply Z.pow_pos_nonneg; lia).
  assert (Hq : 2 ^ 52 ≤ q).
  { destruct (Zdigits2_pos mx Hmx) as (p & -> & Hdig).
    assert (Hb := digits2_pos_bounds p). rewrite <- Hdig in Hb.
    unfold q. apply Z.div_le_lower_bound; [lia|].
    rewrite <- Z.pow_add_r by lia.
    replace (n + 52) with (Zdigits2 (Z.pos p) - 1) by (unfold n; lia). lia. }
  assert (Hmx' : mx < (q + 1) * 2 ^ n).
  { unfold q. assert (H1 := Z.mul_succ_div_gt mx (2 ^ n) Hp). lia. }
  (* the value of the result is m1 * 2^(ex+n) with q <= m1 *)
  assert (Hval : (IZR q * bpow2 (ex + n) <= IZR (Z.pos m) * bpow2 e)%R).
  { replace e with ((e - (ex + n)) + (ex + n)) at 1 by lia.
    rewrite (bpow2_add (e - (ex + n))), (bpow2_nonneg_eq (e - (ex + n))) by lia.
    rewrite <- Rmult_assoc, <- mult_IZR.
    apply Rmult_le_compat_r; [left; apply bpow2_pos|].
    apply IZR_le. lia. }
  assert (Hx : (IZR mx * bpow2 ex <= IZR (q + 1) * bpow2 (ex + n))%R).
  { rewrite (bpow2_add ex n), (bpow2_nonneg_eq n) by lia.
    rewrite (Rmult_comm (bpow2 ex)), <- !Rmult_assoc, <- mult_IZR.
    apply Rmult_le_compat_r; [left; apply bpow2_pos|].
    apply IZR_le. lia. }
  assert (Hq1 : (IZR (q + 1) <= (1 + eps) * IZR q)%R).
  { rewrite plus_IZR. unfold eps.
    assert (H52 := IZR_pow2_pos' 52 ltac:(lia)).
    assert (Hq' : (IZR (2 ^ 52) <= IZR q)%R) by (apply IZR_le; exact Hq).
    rewrite Rmult_plus_distr_r, Rmult_1_l.
    apply Rplus_le_compat_l.
    apply (Rmult_le_reg_l (IZR (2 ^ 52))); [exact H52|].
    rewrite <- Rmult_assoc, Rinv_r, Rmult_1_l, Rmult_1_r by lra. exact Hq'. }
  assert (Hb := bpow2_pos (ex + n)).
  assert (He0 := eps_pos).
  nra.
Qed.

Lemma iter_xO_pow2 m k : Z.pos (Pos.iter xO m k) = Z.pos m * 2 ^ Z.pos k.
Proof.
  change (Pos.iter xO m k) with (shift_pos k m).
  rewrite shift_pos_correct. change (Zpower_pos 2 k) with (2 ^ Z.pos k). lia.
Qed.

Lemma shl_align_spec m e e' :
  e' ≤ e →
  ∃ m', shl_align m e e' = (m', e') ∧ Z.pos m' = Z.pos m * 2 ^ (e - e').
Proof.
  intros H. unfold shl_align.
  destruct (e' - e) as [|d|d] eqn:Hd; try lia.
  - exists m. replace e' with e by lia. rewrite Z.sub_diag. split; [done|lia].
  - exists (Pos.iter xO m d). split; [done|].
    rewrite iter_xO_pow2. f_equal. f_equal. lia.
Qed.

Lemma Z_digits_scale p k :
  0 ≤ k → ∀ p', Z.pos p' = Z.pos p * 2 ^ k →
  Z.pos (digits2_pos p') = Z.pos (digits2_pos p) + k.
Proof.
  intros Hk p' Hp'. apply digits2_pos_unique.
  assert (Hb := digits2_pos_bounds p).
  assert (0 < Z.pos (digits2_pos p)) by lia.
  replace (Z.pos (digits2_pos p) + k - 1) with ((Z.pos (digits2_pos p) - 1) + k) by lia.
  rewrite !Z.pow_add_r, Hp' by lia.
  assert (0 < 2 ^ k) by (apply Z.pow_pos_nonneg; lia). nia.
Qed.

(** Rounding any positive dyadic of the normal range. *)
Lemma binary_round_real s p ex :
  -1074 ≤ Z.pos (digits2_pos p) + ex - 53 →
  binary_round prec emax s p ex = S754_infinity s ∨
  ∃ m e, binary_round prec emax s p ex = S754_finite s m e
         ∧ normal53 m e
         ∧ Z.pos (digits2_pos p) + ex - 53 ≤ e
         ∧ (IZR (Z.pos p) * bpow2 ex <= (1 + eps) * (IZR (Z.pos m) * bpow2 e))%R.
Proof.
  intros Hrange. unfold binary_round.
  rewrite fexp_normal by lia.
  set (d := Z.pos (digits2_pos p)) in *.
  destruct (Z.le_gt_cases 53 d) as [Hd|Hd].
  - (* already wide enough: no alignment *)
    assert (E : shl_align p ex (d + ex - 53) = (p, ex)).
    { unfold shl_align. destruct (d + ex - 53 - ex) eqn:E; try reflexivity. lia. }
    rewrite E. apply binary_round_aux_real; simpl; fold d; lia.
  - destruct (shl_align_spec p ex (d + ex - 53) ltac:(lia)) as (m' & -> & Hm').
    replace (ex - (d + ex - 53)) with (53 - d) in Hm' by lia.
    assert (Hd' := Z_digits_scale p (53 - d) ltac:(lia) m' Hm'). fold d in Hd'.
    destruct (binary_round_aux_real s (Z.pos m') (d + ex - 53) loc_Exact)
      as [H|(m & e & H & Hn & He & Hv)]; simpl; try lia; [left; exact H|right].
    exists m, e. split; [exact H|]. split; [exact Hn|].
    simpl in He. split; [lia|].
    replace (IZR (Z.pos p) * bpow2 ex)%R with (IZR (Z.pos m') * bpow2 (d + ex - 53))%R;
      [exact Hv|].
    rewrite Hm', mult_IZR, <- (bpow2_nonneg_eq (53 - d)) by lia.
    rewrite Rmult_assoc, <- bpow2_add. f_equal. f_equal. lia.
Qed.

Lemma normal53_bounds m e : normal53 m e → 2 ^ 52 ≤ Z.pos m < 2 ^ 53.
Proof.
  intros [Hd _]. assert (Hb := digits2_pos_bounds m).
  rewrite Hd, prec_eq in Hb. exact Hb.
Qed.

Lemma normal53_valid s m e : normal53 m e → valid_binary (S754_finite s m e) = true.
Proof.
  intros [Hd He]. rewrite emin_eq, emax_eq, prec_eq in He.
  unfold SpecFloat.valid_binary, SpecFloat.bounded, SpecFloat.canonical_mantissa.
  rewrite Hd. unfold fexp, SpecFloat.emin. rewrite prec_eq, emax_eq.
  apply andb_true_intro. split; [apply Z.eqb_eq | apply Z.leb_le]; lia.
Qed.

(** [float(i)] for a positive integer. *)
Lemma binary_normalize_pos_real i :
  0 < i →
  binary_normalize prec emax i 0 false = S754_infinity false ∨
  ∃ m e, binary_normalize prec emax i 0 false = S754_finite false m e
         ∧ normal53 m e ∧ -52 ≤ e
         ∧ (IZR i <= (1 + eps) * (IZR (Z.pos m) * bpow2 e))%R.
Proof.
  intros Hi. destruct i as [|p|p]; try lia. simpl binary_normalize.
  assert (0 < Z.pos (digits2_pos p)) by lia.
  destruct (binary_round_real false p 0 ltac:(lia))
    as [H1|(m & e & H1 & Hn & He & Hv)]; [left; exact H1|right].
  exists m, e. split; [exact H1|]. split; [exact Hn|]. split; [lia|].
  rewrite (bpow2_nonneg_eq 0), Rmult_1_r in Hv by lia. exact Hv.
Qed.

(** The product of two normal numbers. *)
Lemma SF64mul_real s1 m1 e1 s2 m2 e2 :
  normal53 m1 e1 → normal53 m2 e2 → -1126 ≤ e1 + e2 →
  let x := S754_finite s1 m1 e1 in
  let y := S754_finite s2 m2 e2 in
  SF64mul x y = S754_infinity (xorb s1 s2) ∨
  ∃ m e, SF64mul x y = S754_finite (xorb s1 s2) m e
         ∧ normal53 m e ∧ e1 + e2 + 52 ≤ e
         ∧ ((IZR (Z.pos m1) * bpow2 e1) * (IZR (Z.pos m2) * bpow2 e2)
            <= (1 + eps) * (IZR (Z.pos m) * bpow2 e))%R.
Proof.
  intros H1 H2 He x y. unfold x, y, SF64mul, SFmul.
  assert (B1 := normal53_bounds _ _ H1). assert (B2 := normal53_bounds _ _ H2).
  assert (Hlo : 2 ^ 104 ≤ Z.pos (m1 * m2)).
  { rewrite Pos2Z.inj_mul. change (2 ^ 104) with (2 ^ 52 * 2 ^ 52). nia. }
  assert (Hd : 105 ≤ Z.pos (digits2_pos (m1 * m2))).
  { assert (Hb := digits2_pos_bounds (m1 * m2)).
    destruct (Z.le_gt_cases 105 (Z.pos (digits2_pos (m1 * m2)))) as [?|Hlt]; [done|].
    assert (2 ^ Z.pos (digits2_pos (m1 * m2)) ≤ 2 ^ 104)
      by (apply Z.pow_le_mono_r; lia).
    lia. }
  destruct (binary_round_aux_real (xorb s1 s2) (Z.pos (m1 * m2)) (e1 + e2) loc_Exact)
    as [H|(m & e & H & Hn & Hee & Hv)]; simpl Zdigits2 in *; try lia; [left; exact H|right].
  exists m, e. split; [exact H|]. split; [exact Hn|]. split; [lia|].
  rewrite Pos2Z.inj_mul, mult_IZR, bpow2_add in Hv.
  lra.
Qed.

(** The sum of two positive normal numbers. *)
Lemma SF64add_real m1 e1 m2 e2 :
  normal53 m1 e1 → normal53 m2 e2 →
  let x := S754_finite false m1 e1 in
  let y := S754_finite false m2 e2 in
  SF64add x y = S754_infinity false ∨
  ∃ m e, SF64add x y = S754_finite false m e
         ∧ normal53 m e
         ∧ (IZR (Z.pos m1) * bpow2 e1 + IZR (Z.pos m2) * bpow2 e2
            <= (1 + eps) * (IZR (Z.pos m) * bpow2 e))%R.
Proof.
  intros H1 H2 x y. unfold x, y, SF64add, SFadd.
  assert (B1 := normal53_bounds _ _ H1).
  destruct H1 as [_ E1], H2 as [_ E2]. rewrite emin_eq in E1, E2.
  set (ez := Z.min e1 e2).
  destruct (shl_align_spec m1 e1 ez ltac:(lia)) as (m1' & -> & Hm1).
  destruct (shl_align_spec m2 e2 ez ltac:(lia)) as (m2' & -> & Hm2).
  cbn [fst cond_Zopp Z.add binary_normalize].
  assert (P1 : 0 < 2 ^ (e1 - ez)) by (apply Z.pow_pos_nonneg; lia).
  assert (Hd : 53 ≤ Z.pos (digits2_pos (m1' + m2'))).
  { assert (Hb := digits2_pos_bounds (m1' + m2')).
    destruct (Z.le_gt_cases 53 (Z.pos (digits2_pos (m1' + m2')))) as [?|Hlt]; [done|].
    assert (2 ^ Z.pos (digits2_pos (m1' + m2')) ≤ 2 ^ 52)
      by (apply Z.pow_le_mono_r; lia).
    rewrite Pos2Z.inj_add in Hb. nia. }
  destruct (binary_round_real false (m1' + m2') ez ltac:(lia))
    as [H|(m & e & H & Hn & He & Hv)]; [left; exact H|right].
  exists m, e. split; [exact H|]. split; [exact Hn|].
  replace (IZR (Z.pos m1) * bpow2 e1 + IZR (Z.pos m2) * bpow2 e2)%R
    with (IZR (Z.pos (m1' + m2')) * bpow2 ez)%R; [exact Hv|].
  rewrite Pos2Z.inj_add, plus_IZR, Hm1, Hm2, !mult_IZR.
  rewrite <- (bpow2_nonneg_eq (e1 - ez)), <- (bpow2_nonneg_eq (e2 - ez)) by lia.
  rewrite Rmult_plus_distr_r, !Rmult_assoc, <- !bpow2_add.
  replace (e1 - ez + ez) with e1 by lia. replace (e2 - ez + ez) with e2 by lia.
  reflexivity.
Qed.

(** The quotient of a positive integer by 100, as [round(x, 2)] takes it. *)
Lemma SF64div_100_real s n :
  let r := SF64div (S754_finite s n 0) (S754_finite false 100 0) in
  r = S754_infinity s ∨
  ∃ m e, r = S754_finite s m e
         ∧ normal53 m e
         ∧ (IZR (Z.pos n) <= 100 * ((1 + eps) * ((1 + eps) * (IZR (Z.pos m) * bpow2 e))))%R.
Proof.
  intros r. unfold r, SF64div, SFdiv, SFdiv_core_binary. clear r.
  rewrite xorb_false_r.
  change (Zdigits2 100) with 7. cbn [Zdigits2].
  set (d1 := Z.pos (digits2_pos n)).
  assert (Hb := digits2_pos_bounds n). fold d1 in Hb.
  assert (Hd1 : 0 < d1) by (unfold d1; lia).
  replace (d1 + 0 - (7 + 0)) with (d1 - 7) by lia.
  rewrite fexp_normal by lia. change (0 - 0) with 0.
  set (e' := Z.min (d1 - 7 - 53) 0).
  set (m' := match 0 - e' with Z.pos _ => Z.shiftl (Z.pos n) (0 - e') | 0 => Z.pos n | Z.neg _ => 0 end).
  assert (Hm' : m' = Z.pos n * 2 ^ (- e')).
  { unfold m'. destruct (0 - e') eqn:E; try lia.
    - replace (- e') with 0 by lia. lia.
    - rewrite Z.shiftl_mul_pow2 by lia. f_equal. f_equal. lia. }
  clearbody m'.
  assert (He' : e' ≤ 0) by (unfold e'; lia).
  assert (Hp : 0 < 2 ^ (- e')) by (apply Z.pow_pos_nonneg; lia).
  assert (Hlo : 2 ^ 59 ≤ m').
  { rewrite Hm'. destruct (Z.le_gt_cases d1 60).
    - replace (- e') with (60 - d1) by (unfold e'; lia).
      replace 59 with ((d1 - 1) + (60 - d1)) by lia.
      rewrite Z.pow_add_r by lia.
      apply Z.mul_le_mono_nonneg_r; lia.
    - replace (- e') with 0 by (unfold e'; lia). rewrite Z.mul_1_r.
      assert (2 ^ 59 ≤ 2 ^ (d1 - 1)) by (apply Z.pow_le_mono_r; lia). lia. }
  destruct (Z.div_eucl m' 100) as [q rr] eqn:E.
  assert (Hq : q = m' / 100) by (unfold Z.div; rewrite E; reflexivity).
  assert (Hq52 : 2 ^ 52 ≤ q).
  { rewrite Hq. apply Z.div_le_lower_bound; [lia|].
    change (2 ^ 59) with 576460752303423488 in Hlo.
    change (2 ^ 52) with 4503599627370496. lia. }
  assert (Hqm : m' < 100 * (q + 1)).
  { rewrite Hq. assert (H1 := Z.mul_succ_div_gt m' 100 ltac:(lia)). lia. }
  destruct (Zdigits2_pos q ltac:(lia)) as (pq & Epq & Hdq).
  assert (Hdq' : 53 ≤ Zdigits2 q).
  { rewrite Hdq. assert (Hbq := digits2_pos_bounds pq). rewrite <- Epq in Hbq.
    destruct (Z.le_gt_cases 53 (Z.pos (digits2_pos pq))) as [?|Hlt]; [done|].
    assert (2 ^ Z.pos (digits2_pos pq) ≤ 2 ^ 52) by (apply Z.pow_le_mono_r; lia).
    lia. }
  assert (Hq0 : 0 < q) by (assert (0 < 2 ^ 52) by (apply Z.pow_pos_nonneg; lia); lia).
  assert (Hrange : -1074 ≤ Zdigits2 q + e' - 53) by (unfold e'; lia).
  destruct (binary_round_aux_real s q e' (new_location 100 rr) Hq0 Hdq' Hrange)
    as [H|(m & e & H & Hn & He & Hv)]; [left; exact H|right].
  exists m, e. split; [exact H|]. split; [exact Hn|].
  assert (Hq1 : (IZR (q + 1) <= (1 + eps) * IZR q)%R).
  { rewrite plus_IZR. unfold eps.
    assert (H52 := IZR_pow2_pos' 52 ltac:(lia)).
    assert (Hq' : (IZR (2 ^ 52) <= IZR q)%R) by (apply IZR_le; exact Hq52).
    rewrite Rmult_plus_distr_r, Rmult_1_l.
    apply Rplus_le_compat_l.
    apply (Rmult_le_reg_l (IZR (2 ^ 52))); [exact H52|].
    rewrite <- Rmult_assoc, Rinv_r, Rmult_1_l, Rmult_1_r by lra. exact Hq'. }
  assert (Hn' : (IZR (Z.pos n) = IZR m' * bpow2 e')%R).
  { rewrite Hm', mult_IZR, <- (bpow2_nonneg_eq (- e')) by lia.
    rewrite Rmult_assoc, <- bpow2_add. replace (- e' + e') with 0 by lia.
    rewrite (bpow2_nonneg_eq 0) by lia. simpl. lra. }
  assert (Hm100 : (IZR m' <= 100 * IZR (q + 1))%R).
  { rewrite <- mult_IZR. apply IZR_le. lia. }
  assert (Hbe := bpow2_pos e'). assert (He0 := eps_pos).
  rewrite Hn'.
  apply Rle_trans with (100 * ((1 + eps) * (IZR q * bpow2 e')))%R; [nra|].
  apply Rmult_le_compat_l; [lra|]. apply Rmult_le_compat_l; [lra|]. exact Hv.
Qed.

(** *** Comparison with the ease floor 1.3 *)

Lemma Prim2SF_13 : Prim2SF 1.3 = S754_finite false 5854679515581645 (-52).
Proof. reflexivity. Qed.

Lemma bpow2_m52 : bpow2 (-52) = eps.
Proof. reflexivity. Qed.

Lemma eps_val : eps = (/ 4503599627370496)%R.
Proof. reflexivity. Qed.

Lemma bpow2_m51 : bpow2 (-51) = (/ 2251799813685248)%R.
Proof. reflexivity. Qed.

Lemma bpow2_m53 : bpow2 (-53) = (/ 9007199254740992)%R.
Proof. reflexivity. Qed.

Lemma valid_normal s m e :
  valid_binary (S754_finite s m e) = true → -1074 < e → normal53 m e.
Proof.
  unfold SpecFloat.valid_binary, SpecFloat.bounded, SpecFloat.canonical_mantissa.
  intros H He. apply andb_prop in H as [H1 H2].
  apply Z.eqb_eq in H1. apply Z.leb_le in H2.
  unfold fexp, SpecFloat.emin in H1. rewrite prec_eq, emax_eq in *.
  split; rewrite ?emin_eq, ?emax_eq, ?prec_eq; lia.
Qed.

Lemma leb13_inv x :
  PrimFloat.leb 1.3 x = true →
  Prim2SF x = S754_infinity false ∨
  ∃ m e, Prim2SF x = S754_finite false m e ∧ normal53 m e ∧ -52 ≤ e
         ∧ (IZR 5854679515581645 * eps <= IZR (Z.pos m) * bpow2 e)%R.
Proof.
  rewrite leb_spec, Prim2SF_13. intros H.
  assert (Hv := Prim2SF_valid x).
  destruct (Prim2SF x) as [s|[|]| |[|] m e]; try discriminate; [left; reflexivity|right].
  exists m, e. split; [reflexivity|].
  unfold SFleb, SFcompare in H.
  destruct (Z.compare_spec (-52) e) as [Heq|Hlt|Hgt]; try discriminate.
  - subst e. assert (Hn := valid_normal _ _ _ Hv ltac:(lia)).
    split; [exact Hn|]. split; [lia|]. rewrite bpow2_m52.
    apply Rmult_le_compat_r; [left; apply eps_pos|]. apply IZR_le.
    rewrite Pos.compare_cont_spec in H. unfold Pos.switch_Eq in H.
    destruct (5854679515581645 ?= m)%positive eqn:E; try discriminate.
    + apply Pos.compare_eq in E. subst m. lia.
    + assert (E' : (5854679515581645 < m)%positive) by exact E. lia.
  - assert (Hn := valid_normal _ _ _ Hv ltac:(lia)).
    split; [exact Hn|]. split; [lia|].
    assert (B := normal53_bounds _ _ Hn).
    assert (Hb : (bpow2 (-51) <= bpow2 e)%R) by (apply bpow2_le; lia).
    assert (Hm : (IZR (2 ^ 52) <= IZR (Z.pos m))%R) by (apply IZR_le; lia).
    assert (Hp := bpow2_pos e).
    apply Rle_trans with (IZR (2 ^ 52) * bpow2 (-51))%R;
      [rewrite eps_val, bpow2_m51; change (2 ^ 52) with 4503599627370496; lra|].
    apply Rle_trans with (IZR (2 ^ 52) * bpow2 e)%R.
    + apply Rmult_le_compat_l; [apply IZR_le; lia | exact Hb].
    + apply Rmult_le_compat_r; [lra | exact Hm].
Qed.

Lemma leb13_intro x :
  (Prim2SF x = S754_infinity false ∨
   ∃ m e, Prim2SF x = S754_finite false m e ∧ normal53 m e
          ∧ (IZR 5854679515581645 * eps <= IZR (Z.pos m) * bpow2 e)%R) →
  PrimFloat.leb 1.3 x = true.
Proof.
  rewrite leb_spec, Prim2SF_13.
  intros [->|(m & e & -> & Hn & Hv)]; [reflexivity|].
  unfold SFleb, SFcompare.
  assert (B := normal53_bounds _ _ Hn).
  destruct (Z.compare_spec (-52) e) as [Heq|Hlt|Hgt]; [|reflexivity|exfalso].
  - subst e. rewrite bpow2_m52 in Hv. assert (He := eps_pos).
    assert (Hm : (IZR 5854679515581645 <= IZR (Z.pos m))%R)
      by (apply (Rmult_le_reg_r eps); [exact He | exact Hv]).
    apply le_IZR in Hm.
    rewrite Pos.compare_cont_spec. unfold Pos.switch_Eq.
    destruct (5854679515581645 ?= m)%positive eqn:E; try reflexivity.
    apply Pos.compare_gt_iff in E. apply Pos2Z.pos_lt_pos in E.
    exfalso. clear -E Hm. apply (Z.lt_irrefl (Z.pos m)).
    eapply Z.lt_le_trans; [exact E | exact Hm].
  - assert (Hb : (bpow2 e <= bpow2 (-53))%R) by (apply bpow2_le; lia).
    assert (Hm : (IZR (Z.pos m) <= IZR (2 ^ 53))%R) by (apply IZR_le; lia).
    assert (Hp := bpow2_pos e).
    assert (Hx : (IZR (Z.pos m) * bpow2 e <= IZR (2 ^ 53) * bpow2 (-53))%R).
    { apply Rle_trans with (IZR (2 ^ 53) * bpow2 e)%R.
      - apply Rmult_le_compat_r; [lra | exact Hm].
      - apply Rmult_le_compat_l; [apply IZR_le; lia | exact Hb]. }
    revert Hv Hx. rewrite eps_val, bpow2_m53. change (2 ^ 53) with 9007199254740992. lra.
Qed.

(** *** Integer part *)

Lemma py_int_lower x m e i k :
  Prim2SF x = S754_finite false m e →
  (IZR i <= IZR (Z.pos m) * bpow2 e)%R →
  py_int x = Return k → i ≤ k.
Proof.
  intros Hx Hv. unfold py_int. rewrite Hx. intros [= <-].
  cbn [cond_Zopp]. unfold dyadic_quot. revert Hv. unfold bpow2.
  destruct (0 <=? e) eqn:He; intros Hv.
  - rewrite <- mult_IZR in Hv. apply le_IZR in Hv. exact Hv.
  - apply Z.leb_gt in He.
    assert (Hp : 0 < 2 ^ (- e)) by (apply Z.pow_pos_nonneg; lia).
    apply Z.div_le_lower_bound; [exact Hp|].
    apply le_IZR. rewrite mult_IZR.
    assert (Hp' : (0 < IZR (2 ^ (- e)))%R) by (apply IZR_lt; exact Hp).
    apply (Rmult_le_compat_r (IZR (2 ^ (- e)))) in Hv; [|lra].
    rewrite Rmult_assoc, Rinv_l, Rmult_1_r in Hv by lra. lra.
Qed.

(** * Python float operations on scheduling values *)

Lemma sf_valid_roundtrip sf :
  valid_binary sf = true → Prim2SF (SF2Prim sf) = sf.
Proof. apply Prim2SF_SF2Prim. Qed.

(** [float(i)] of a positive integer is a normal number at most a factor
    [1 + eps] below [i]. *)
Lemma py_float_real i f :
  0 < i → py_float i = Return f →
  ∃ m e, Prim2SF f = S754_finite false m e ∧ normal53 m e ∧ -52 ≤ e
         ∧ (IZR i <= (1 + eps) * (IZR (Z.pos m) * bpow2 e))%R.
Proof.
  intros Hi. unfold py_float.
  destruct (binary_normalize_pos_real i Hi) as [->|(m & e & -> & Hn & He & Hv)];
    [discriminate|].
  intros Hf. assert (Ef : f = SF2Prim (S754_finite false m e)) by congruence.
  exists m, e. rewrite Ef.
  rewrite Prim2SF_SF2Prim by (apply normal53_valid; exact Hn). auto.
Qed.

Lemma normal53_13 : normal53 5854679515581645 (-52).
Proof. split; [reflexivity | rewrite emin_eq, emax_eq, prec_eq; lia]. Qed.

Lemma Prim2SF_015 : Prim2SF 0.15 = S754_finite false 5404319552844595 (-55).
Proof. reflexivity. Qed.

Lemma normal53_015 : normal53 5404319552844595 (-55).
Proof. split; [reflexivity | rewrite emin_eq, emax_eq, prec_eq; lia]. Qed.

Lemma bpow2_m55 : bpow2 (-55) = (/ 36028797018963968)%R.
Proof. reflexivity. Qed.

(** The floor 1.3 exceeds [(1 + eps)^3]: three roundings cannot bring a
    product by it below the other factor. *)
Lemma v13_margin :
  ((1 + eps) * ((1 + eps) * (1 + eps)) <= IZR 5854679515581645 * eps)%R.
Proof. rewrite eps_val. lra. Qed.

Lemma leb13_max y : PrimFloat.leb 1.3 (py_max 1.3 y) = true.
Proof.
  unfold py_max. destruct (PrimFloat.ltb 1.3 y) eqn:H; [|reflexivity].
  rewrite ltb_spec in H. rewrite leb_spec.
  unfold SFltb in H. unfold SFleb.
  destruct (SFcompare (Prim2SF 1.3) (Prim2SF y)) as [[]|]; try discriminate; reflexivity.
Qed.

Lemma leb13_add015 e :
  PrimFloat.leb 1.3 e = true → PrimFloat.leb 1.3 (e + 0.15) = true.
Proof.
  intros H. apply leb13_intro. rewrite add_spec, Prim2SF_015.
  destruct (leb13_inv e H) as [->|(m & ex & -> & Hn & He & Hv)]; [left; reflexivity|].
  destruct (SF64add_real m ex _ _ Hn normal53_015) as [E|(m' & e' & E & Hn' & Hv')];
    cbv zeta in E; rewrite E; [left; reflexivity|right].
  exists m', e'. split; [reflexivity|]. split; [exact Hn'|].
  assert (Hm := v13_margin). assert (He0 := eps_pos).
  rewrite bpow2_m55 in Hv'. rewrite eps_val in *.
  set (V := (IZR (Z.pos m') * bpow2 e')%R) in *.
  set (X := (IZR (Z.pos m) * bpow2 ex)%R) in *.
  lra.
Qed.

Lemma div_half_even_ge a b : 0 < b → a / b ≤ div_half_even a b.
Proof.
  intros Hb. unfold div_half_even.
  destruct (2 * (a mod b) ?= b); [destruct (Z.even (a / b))|..]; lia.
Qed.

(** A value of at least 1.3 has at least 130 hundredths. *)
Lemma hundredths_ge_130 m e :
  normal53 m e → -52 ≤ e →
  (IZR 5854679515581645 * eps <= IZR (Z.pos m) * bpow2 e)%R →
  130 ≤ hundredths m e.
Proof.
  intros Hn He Hv. assert (B := normal53_bounds _ _ Hn).
  unfold hundredths. destruct (0 <=? e) eqn:E.
  - apply Z.leb_le in E.
    assert (1 ≤ 2 ^ e) by (assert (0 < 2 ^ e) by (apply Z.pow_pos_nonneg; lia); lia).
    change (2 ^ 52) with 4503599627370496 in B. nia.
  - apply Z.leb_gt in E.
    assert (Hp : 0 < 2 ^ (- e)) by (apply Z.pow_pos_nonneg; lia).
    etransitivity; [|apply div_half_even_ge; exact Hp].
    apply Z.div_le_lower_bound; [exact Hp|].
    (* 10 m >= 13 * 2^(-e), from m * 2^e >= 1.3 *)
    unfold bpow2 in Hv. replace (0 <=? e) with false in Hv by (symmetry; apply Z.leb_gt; lia).
    assert (Hp' : (0 < IZR (2 ^ (- e)))%R) by (apply IZR_lt; exact Hp).
    apply (Rmult_le_compat_r (IZR (2 ^ (- e)))) in Hv; [|lra].
    rewrite (Rmult_assoc (IZR (Z.pos m))), Rinv_l, Rmult_1_r in Hv by lra.
    rewrite eps_val in Hv.
    assert (Hz : (IZR (13 * 2 ^ (- e)) <= IZR (10 * Z.pos m))%R).
    { rewrite !mult_IZR. lra. }
    apply le_IZR in Hz. lia.
Qed.

Lemma SF64div_130 :
  SF64div (S754_finite false 130 0) (S754_finite false 100 0)
  = S754_finite false 5854679515581645 (-52).
Proof. reflexivity. Qed.

(** Rounding to two decimals keeps the ease at or above 1.3. *)
Lemma leb13_round2 x :
  PrimFloat.leb 1.3 x = true → PrimFloat.leb 1.3 (py_round2 x) = true.
Proof.
  intros H. unfold py_round2.
  destruct (leb13_inv x H) as [E|(m & e & E & Hn & He & Hv)]; rewrite E; [exact H|].
  assert (Hh := hundredths_ge_130 m e Hn He Hv).
  destruct (hundredths m e) as [|n|n]; try lia.
  apply leb13_intro.
  destruct (Z.eq_dec (Z.pos n) 130) as [Hn130|Hne].
  - injection Hn130 as ->. rewrite SF64div_130.
    rewrite Prim2SF_SF2Prim by (apply normal53_valid, normal53_13).
    right. exists 5854679515581645%positive, (-52). rewrite bpow2_m52.
    split; [reflexivity|]. split; [apply normal53_13 | lra].
  - destruct (SF64div_100_real false n) as [E'|(m' & e' & E' & Hn' & Hv')];
      cbv zeta in E'; rewrite E'.
    + left. reflexivity.
    + rewrite Prim2SF_SF2Prim by (apply normal53_valid; exact Hn').
      right. exists m', e'. split; [reflexivity|]. split; [exact Hn'|].
      assert (Hn131 : (131 <= IZR (Z.pos n))%R) by (apply IZR_le; lia).
      assert (He0 := eps_pos). rewrite eps_val in *.
      set (V := (IZR (Z.pos m') * bpow2 e')%R) in *.
      lra.
Qed.

(** *** The new interval is not below the old one *)

Lemma mul_ge13_lower f e mf ef :
  Prim2SF f = S754_finite false mf ef → normal53 mf ef → -52 ≤ ef →
  PrimFloat.leb 1.3 e = true →
  Prim2SF (f * e) = S754_infinity false ∨
  ∃ m ex, Prim2SF (f * e) = S754_finite false m ex ∧ normal53 m ex ∧ -52 ≤ ex
          ∧ ((IZR (Z.pos mf) * bpow2 ef) * (IZR 5854679515581645 * eps)
             <= (1 + eps) * (IZR (Z.pos m) * bpow2 ex))%R.
Proof.
  intros Hf Hnf Hef He. rewrite mul_spec, Hf.
  destruct (leb13_inv e He) as [->|(me & ee & -> & Hne & Hee & Hve)]; [left; reflexivity|].
  destruct (SF64mul_real false mf ef false me ee Hnf Hne ltac:(lia))
    as [E|(m & ex & E & Hn & Hex & Hv)]; cbv zeta in E; rewrite E;
    [left; reflexivity|right].
  exists m, ex. split; [reflexivity|]. split; [exact Hn|]. split; [lia|].
  assert (B := normal53_bounds _ _ Hnf).
  assert (Hpf : (0 < IZR (Z.pos mf) * bpow2 ef)%R).
  { apply Rmult_lt_0_compat; [apply IZR_lt; lia | apply bpow2_pos]. }
  eapply Rle_trans; [|exact Hv].
  apply Rmult_le_compat_l; [lra | exact Hve].
Qed.

Lemma good_interval_ge i e f k :
  1 ≤ i → PrimFloat.leb 1.3 e = true →
  py_float i = Return f → py_int (f * e) = Return k → i ≤ k.
Proof.
  intros Hi He Hf Hk.
  destruct (py_float_real i f ltac:(lia) Hf) as (mf & ef & Ef & Hnf & Hef & Hvf).
  destruct (mul_ge13_lower f e mf ef Ef Hnf Hef He) as [E|(m & ex & E & Hn & Hex & Hv)].
  - unfold py_int in Hk. rewrite E in Hk. discriminate.
  - apply (py_int_lower (f * e) m ex i k E); [|exact Hk].
    assert (Hm := v13_margin). assert (He0 := eps_pos).
    set (F := (IZR (Z.pos mf) * bpow2 ef)%R) in *.
    set (P := (IZR (Z.pos m) * bpow2 ex)%R) in *.
    set (c := (IZR 5854679515581645 * eps)%R) in *.
    assert (HF : (0 < F)%R).
    { apply Rmult_lt_0_compat; [apply IZR_lt; lia | apply bpow2_pos]. }
    assert (H1 : (F * ((1 + eps) * (1 + eps)) <= F * c)%R).
    { apply Rmult_le_compat_l; [lra|]. nra. }
    nra.
Qed.

Lemma easy_interval_ge i e f k :
  1 ≤ i → PrimFloat.leb 1.3 e = true →
  py_float i = Return f → py_int (f * e * 1.3) = Return k → i ≤ k.
Proof.
  intros Hi He Hf Hk.
  destruct (py_float_real i f ltac:(lia) Hf) as (mf & ef & Ef & Hnf & Hef & Hvf).
  destruct (mul_ge13_lower f e mf ef Ef Hnf Hef He) as [E|(m & ex & E & Hn & Hex & Hv)].
  - unfold py_int in Hk. rewrite mul_spec, E in Hk. discriminate.
  - destruct (mul_ge13_lower (f * e) 1.3 m ex E Hn Hex eq_refl)
      as [E2|(m2 & e2 & E2 & Hn2 & He2 & Hv2)].
    + unfold py_int in Hk. rewrite E2 in Hk. discriminate.
    + apply (py_int_lower (f * e * 1.3) m2 e2 i k E2); [|exact Hk].
      assert (Hm := v13_margin). assert (He0 := eps_pos).
      set (F := (IZR (Z.pos mf) * bpow2 ef)%R) in *.
      set (P := (IZR (Z.pos m) * bpow2 ex)%R) in *.
      set (P2 := (IZR (Z.pos m2) * bpow2 e2)%R) in *.
      set (c := (IZR 5854679515581645 * eps)%R) in *.
      assert (HF : (0 < F)%R).
      { apply Rmult_lt_0_compat; [apply IZR_lt; lia | apply bpow2_pos]. }
      assert (Hc : (1 + eps <= c)%R) by nra.
      assert (HP : (F <= P)%R) by nra.
      assert (HP2 : (P <= P2)%R) by nra.
      nra.
Qed.

(** *** Signs: where truncation and floor agree *)

Lemma binary_round_aux_not_neg mx ex lx :
  sf_neg (binary_round_aux prec emax false mx ex lx) = false.
Proof.
  unfold binary_round_aux.
  destruct (shr_fexp prec emax mx ex lx) as [mrs' e'].
  destruct (shr_fexp prec emax _ e' loc_Exact) as [mrs'' e''].
  destruct (shr_m mrs''); [reflexivity| |reflexivity].
  destruct (e'' <=? emax - prec); reflexivity.
Qed.

Lemma SF64mul_not_neg x y :
  sf_neg x = false → sf_neg y = false → sf_neg (SF64mul x y) = false.
Proof.
  destruct x as [[]|[]| |[] mx ex], y as [[]|[]| |[] my ey];
    try discriminate; try reflexivity.
  intros _ _. apply binary_round_aux_not_neg.
Qed.

Lemma ltb0_not_neg x : PrimFloat.ltb x 0 = false → sf_neg (Prim2SF x) = false.
Proof.
  rewrite ltb_spec. change (Prim2SF 0) with (S754_zero false).
  destruct (Prim2SF x) as [[]|[]| |[] m e]; try reflexivity; discriminate.
Qed.

Lemma py_float_not_neg i f :
  0 ≤ i → py_float i = Return f → sf_neg (Prim2SF f) = false.
Proof.
  intros Hi Hf. destruct (Z.eq_dec i 0) as [->|Hne].
  - injection Hf as <-. reflexivity.
  - destruct (py_float_real i f ltac:(lia) Hf) as (m & e & -> & _). reflexivity.
Qed.

Lemma py_floor_not_neg x : sf_neg (Prim2SF x) = false → py_floor x = py_int x.
Proof.
  unfold py_floor, py_int. destruct (Prim2SF x) as [s|s| |[] m e]; try reflexivity.
  discriminate.
Qed.

(** * The store and its files *)

Lemma string_length_app (s1 s2 : string) :
  String.length (s1 ++ s2) = (String.length s1 + String.length s2)%nat.
Proof. induction s1 as [|a s1 IH]; simpl; [reflexivity | rewrite IH; reflexivity]. Qed.

Lemma string_app_inv_tail (s1 s2 t : string) : s1 ++ t = s2 ++ t → s1 = s2.
Proof.
  revert s2. induction s1 as [|a s1 IH]; intros [|b s2] H; simpl in H.
  - reflexivity.
  - apply (f_equal String.length) in H.
    rewrite !string_length_app in H. simpl in H. lia.
  - apply (f_equal String.length) in H.
    rewrite !string_length_app in H. simpl in H. lia.
  - injection H as -> H. f_equal. apply IH, H.
Qed.

Lemma deck_path_inj id1 id2 : deck_path id1 = deck_path id2 → id1 = id2.
Proof. apply string_app_inv_tail. Qed.

Lemma deck_path_index id : deck_path id = index_path → id = "decks".
Proof. apply (string_app_inv_tail id "decks" ".json"). Qed.

Lemma load_deck_save_deck id dk (s : store) :
  load_deck (save_deck id dk s) id = Some (DeckDoc dk).
Proof. apply lookup_insert_eq. Qed.

Lemma load_deck_save_deck_ne id id' dk (s : store) :
  id ≠ id' → load_deck (save_deck id dk s) id' = load_deck s id'.
Proof.
  intros H. apply lookup_insert_ne. intros E. apply H, deck_path_inj, E.
Qed.

Lemma load_decks_save_decks r (s : store) : load_decks (save_decks r s) = IndexDoc r.
Proof. unfold load_decks, save_decks. rewrite lookup_insert_eq. reflexivity. Qed.

Lemma load_deck_save_decks r (s : store) id :
  id ≠ "decks" → load_deck (save_decks r s) id = load_deck s id.
Proof.
  intros H. apply lookup_insert_ne. intros E. apply H. symmetry in E.
  apply deck_path_index, E.
Qed.

Lemma load_decks_save_deck id dk (s : store) :
  id ≠ "decks" → load_decks (save_deck id dk s) = load_decks s.
Proof.
  intros H. unfold load_decks, save_deck. rewrite lookup_insert_ne; [reflexivity|].
  intros E. apply H, deck_path_index, E.
Qed.

Lemma load_decks_save_deck_decks dk (s : store) :
  load_decks (save_deck "decks" dk s) = DeckDoc dk.
Proof. unfold load_decks, save_deck. rewrite lookup_insert_eq. reflexivity. Qed.

(** * Reviews *)

(** What a successful [update_card] did. *)
Lemma update_card_Return now id cid rating (s s' : store) c' :
  update_card now id cid rating s = (s', Return c') →
  ∃ dk idx c,
    load_deck s id = Some (DeckDoc dk)
    ∧ find_card cid 0 (d_cards dk) = Some (idx, c)
    ∧ review_card now c rating = Return c'
    ∧ id ≠ "decks"
    ∧ index_ok s
    ∧ s' = save_decks
             {| r_decks := r_decks (index_of s);
                r_stats := update_stats (date_of now) (stats_of s) |}
             (save_deck id
                {| d_id := d_id dk; d_name := d_name dk; d_source := d_source dk;
                   d_cards := <[idx := c']> (d_cards dk); d_created := d_created dk |} s).
Proof.
  unfold update_card. intros H.
  destruct (load_deck s id) as [[dk|r]|] eqn:Hd; try (injection H as _ H; discriminate).
  destruct (find_card cid 0 (d_cards dk)) as [[idx c]|] eqn:Hf;
    try (injection H as _ H; discriminate).
  destruct (review_card now c rating) as [c1|e] eqn:Hr;
    try (injection H as _ H; discriminate).
  exists dk, idx, c.
  destruct (decide (id = "decks")) as [->|Hne].
  - rewrite load_decks_save_deck_decks in H. injection H as _ H. discriminate.
  - rewrite load_decks_save_deck in H by exact Hne.
    unfold stats_of, index_of, index_ok.
    unfold load_decks in *.
    destruct (s !! index_path) as [[dk0|r0]|] eqn:Hi;
      try (injection H as _ H; discriminate);
      injection H as <- <-; auto 10.
Qed.

(** The converse: when the deck and the card are there, the review goes
    through and the index is well formed, [update_card] returns. *)
Lemma update_card_run now id cid rating (s : store) dk idx c c' :
  load_deck s id = Some (DeckDoc dk) →
  find_card cid 0 (d_cards dk) = Some (idx, c) →
  review_card now c rating = Return c' →
  id ≠ "decks" → index_ok s →
  update_card now id cid rating s =
    (save_decks
       {| r_decks := r_decks (index_of s);
          r_stats := update_stats (date_of now) (stats_of s) |}
       (save_deck id
          {| d_id := d_id dk; d_name := d_name dk; d_source := d_source dk;
             d_cards := <[idx := c']> (d_cards dk); d_created := d_created dk |} s),
     Return c').
Proof.
  intros Hd Hf Hr Hne Hi. unfold update_card. rewrite Hd, Hf, Hr.
  rewrite load_decks_save_deck by exact Hne.
  unfold stats_of, index_of, index_ok, load_decks in *.
  destruct (s !! index_path) as [[dk0|r0]|]; [contradiction|reflexivity|reflexivity].
Qed.

Lemma find_card_lookup cid i cards idx c :
  find_card cid i cards = Some (idx, c) →
  (i ≤ idx)%nat ∧ cards !! (idx - i)%nat = Some c ∧ c_id c = cid.
Proof.
  revert i. induction cards as [|c0 cards IH]; intros i H; simpl in H; [discriminate|].
  destruct (String.eqb (c_id c0) cid) eqn:E.
  - injection H as <- <-. apply String.eqb_eq in E.
    replace (i - i)%nat with 0%nat by lia. auto.
  - apply IH in H as (H1 & H2 & H3). split; [lia|]. split; [|exact H3].
    replace (idx - i)%nat with (S (idx - S i)) by lia. exact H2.
Qed.

(** * The scheduler *)

Lemma sm2_table_int i e reps r :
  sm2 i e reps (rating_value r) = sm2_table py_int i e reps r.
Proof.
  destruct r; unfold sm2, sm2_table; cbn [rating_value Z.eqb]; try reflexivity.
  - destruct (reps + 1 =? 1); [reflexivity|].
    destruct (reps + 1 =? 2); [reflexivity|].
    destruct (py_float i) as [f|]; [|reflexivity]. cbn.
    destruct (py_int (f * e)); reflexivity.
Qed.

Lemma ipart_mul_not_neg i f y :
  0 ≤ i → py_float i = Return f → sf_neg (Prim2SF y) = false →
  py_floor (f * y) = py_int (f * y).
Proof.
  intros Hi Hf Hy. apply py_floor_not_neg. rewrite mul_spec.
  apply SF64mul_not_neg; [eapply py_float_not_neg; eauto | exact Hy].
Qed.

Lemma sm2_table_floor i e reps r :
  0 ≤ i → PrimFloat.ltb e 0 = false →
  sm2_table py_floor i e reps r = sm2_table py_int i e reps r.
Proof.
  intros Hi He. apply ltb0_not_neg in He.
  destruct r; unfold sm2_table; try reflexivity.
  - destruct (py_float i) as [f|] eqn:Hf; [|reflexivity]. cbn.
    rewrite (ipart_mul_not_neg i f 1.2 Hi Hf eq_refl). reflexivity.
  - destruct (reps + 1 =? 1); [reflexivity|].
    destruct (reps + 1 =? 2); [reflexivity|].
    destruct (py_float i) as [f|] eqn:Hf; [|reflexivity]. cbn.
    rewrite (ipart_mul_not_neg i f e Hi Hf He). reflexivity.
  - destruct (reps + 1 =? 1); [reflexivity|].
    destruct (py_float i) as [f|] eqn:Hf; [|reflexivity]. cbn.
    assert (E : py_floor (f * e * 1.3) = py_int (f * e * 1.3)).
    { apply py_floor_not_neg. rewrite mul_spec.
      apply SF64mul_not_neg; [|reflexivity]. rewrite mul_spec.
      apply SF64mul_not_neg; [eapply py_float_not_neg; eauto | exact He]. }
    rewrite E. reflexivity.
Qed.

(** The scheduling values of the card [review_card] returns. *)
Lemma review_card_sm2 now c rating c' :
  review_card now c rating = Return c' →
  ∃ i' e' r',
    sm2 (interval_of c) (ease_of c) (reps_of c) rating = Return (i', e', r')
    ∧ add_days now i' = Return (default 0 (c_due c'))
    ∧ c_interval c' = Some i' ∧ c_ease c' = Some (py_round2 e') ∧ c_reps c' = Some r'
    ∧ c_due c' = Some (now + i' * day_us)
    ∧ c_lastReview c' = Some now ∧ c_lastRating c' = Some rating
    ∧ c_id c' = c_id c.
Proof.
  unfold review_card, interval_of, ease_of, reps_of.
  destruct (sm2 _ _ _ rating) as [[[i' e'] r']|]; [|discriminate]. cbn.
  destruct (add_days now i') as [due|] eqn:Hd; [|discriminate]. cbn.
  intros [= <-]. exists i', e', r'. cbn.
  assert (due = now + i' * day_us).
  { unfold add_days in Hd. destruct (999999999 <? Z.abs i'); [discriminate|].
    destruct ((0 <=? now + i' * day_us) && (now + i' * day_us <? datetime_end));
      congruence. }
  subst due. auto 10.
Qed.

Lemma sm2_invalid i e reps rating :
  ¬ valid_rating rating → sm2 i e reps rating = Return (i, e, reps + 1).
Proof.
  intros H. unfold valid_rating in H. unfold sm2.
  destruct (Z.eqb_spec rating 0); [lia|].
  destruct (Z.eqb_spec rating 1); [lia|].
  destruct (Z.eqb_spec rating 2); [lia|].
  destruct (Z.eqb_spec rating 3); [lia|]. reflexivity.
Qed.

Lemma valid_rating_cases rating :
  valid_rating rating → ∃ r, rating = rating_value r.
Proof.
  intros H. unfold valid_rating in H.
  destruct (Z.eq_dec rating 0) as [->|]; [exists Again; reflexivity|].
  destruct (Z.eq_dec rating 1) as [->|]; [exists Hard; reflexivity|].
  destruct (Z.eq_dec rating 2) as [->|]; [exists Good; reflexivity|].
  destruct (Z.eq_dec rating 3) as [->|]; [exists Easy; reflexivity|]. lia.
Qed.

(** One step of the scheduler keeps [interval >= 1] and, after the
    two-decimal rounding, [ease >= 1.3]. *)
Lemma sm2_inv i e reps rating i' e' r' :
  valid_rating rating → 1 ≤ i → PrimFloat.leb 1.3 e = true →
  sm2 i e reps rating = Return (i', e', r') →
  1 ≤ i' ∧ PrimFloat.leb 1.3 (py_round2 e') = true.
Proof.
  intros Hv Hi He. destruct (valid_rating_cases rating Hv) as [r ->].
  rewrite sm2_table_int. destruct r; unfold sm2_table.
  - intros [= <- <- _]. split; [lia|]. apply leb13_round2, leb13_max.
  - destruct (py_float i) as [f|]; [|discriminate]. cbn.
    destruct (py_int (f * 1.2)) as [k|]; [|discriminate]. cbn.
    intros [= <- <- _]. split; [lia|]. apply leb13_round2, leb13_max.
  - destruct (reps + 1 =? 1); [intros [= <- <- _]; split; [lia|apply leb13_round2, He]|].
    destruct (reps + 1 =? 2); [intros [= <- <- _]; split; [lia|apply leb13_round2, He]|].
    destruct (py_float i) as [f|] eqn:Hf; [|discriminate]. cbn.
    destruct (py_int (f * e)) as [k|] eqn:Hk; [|discriminate]. cbn.
    intros [= <- <- _]. split; [|apply leb13_round2, He].
    assert (i ≤ k) by exact (good_interval_ge i e f k Hi He Hf Hk). lia.
  - assert (He' : PrimFloat.leb 1.3 (py_round2 (e + 0.15)) = true)
      by (apply leb13_round2, leb13_add015, He).
    destruct (reps + 1 =? 1); [intros [= <- <- _]; split; [lia|exact He']|].
    destruct (py_float i) as [f|] eqn:Hf; [|discriminate]. cbn.
    destruct (py_int (f * e * 1.3)) as [k|] eqn:Hk; [|discriminate]. cbn.
    intros [= <- <- _]. split; [|exact He'].
    assert (i ≤ k) by exact (easy_interval_ge i e f k Hi He Hf Hk). lia.
Qed.

(** After two successes, a Good or Easy review does not shorten the interval. *)
Lemma sm2_monotone i e reps rating i' e' r' :
  1 ≤ i → PrimFloat.leb 1.3 e = true → rating = 2 ∨ rating = 3 → 2 ≤ reps →
  sm2 i e reps rating = Return (i', e', r') → i ≤ i'.
Proof.
  intros Hi He Hr Hreps. unfold sm2.
  assert (E1 : (reps + 1 =? 1) = false) by (apply Z.eqb_neq; lia).
  assert (E2 : (reps + 1 =? 2) = false) by (apply Z.eqb_neq; lia).
  destruct Hr as [-> | ->]; cbn [Z.eqb]; rewrite E1, ?E2.
  - destruct (py_float i) as [f|] eqn:Hf; [|discriminate]. cbn.
    destruct (py_int (f * e)) as [k|] eqn:Hk; [|discriminate]. cbn.
    intros [= <- _ _]. exact (good_interval_ge i e f k Hi He Hf Hk).
  - destruct (py_float i) as [f|] eqn:Hf; [|discriminate]. cbn.
    destruct (py_int (f * e * 1.3)) as [k|] eqn:Hk; [|discriminate]. cbn.
    intros [= <- _ _]. exact (easy_interval_ge i e f k Hi He Hf Hk).
Qed.

Lemma review_card_inv now c rating c' :
  valid_rating rating → card_inv c → review_card now c rating = Return c' → card_inv c'.
Proof.
  intros Hv [He Hi] Hr.
  destruct (review_card_sm2 _ _ _ _ Hr) as (i' & e' & r' & Hs & _ & Ei & Ee & _).
  destruct (sm2_inv _ _ _ _ _ _ _ Hv Hi He Hs) as [Hi' He'].
  unfold card_inv, ease_of, interval_of. rewrite Ei, Ee. auto.
Qed.

Lemma review_seq_inv log : ∀ c c',
  Forall (λ x, valid_rating x.2) log → card_inv c →
  review_seq c log = Return c' → card_inv c'.
Proof.
  induction log as [|[now rating] log IH]; intros c c' Hv Hc H; simpl in H.
  - injection H as <-. exact Hc.
  - apply Forall_cons in Hv as [Hv1 Hv].
    destruct (review_card now c rating) as [c1|] eqn:Hr; [|discriminate].
    apply (IH c1 c' Hv); [|exact H]. eapply review_card_inv; eauto.
Qed.

Lemma init_card_inv deck_id t i fb : card_inv (init_card deck_id t i fb).
Proof. split; [reflexivity | unfold interval_of; simpl; lia]. Qed.

(** * The claims about the scheduler *)

(** C1, counterexample: the rating 7 is taken; the card is returned with
    one more repetition and the deck record and the statistics change. *)
Lemma invalid_rating_accepted :
  (update_card t0 "bio-1a2b3c" "bio-1a2b3c-0" 7 sample_store).2
  = Return {| c_id := "bio-1a2b3c-0"; c_front := "cell"; c_back := "unit of life";
              c_interval := Some 1; c_ease := Some 2.5%float;
              c_due := Some (t0 + day_us); c_reps := Some 1; c_created := t0;
              c_lastReview := Some t0; c_lastRating := Some 7;
              c_deck_id := None; c_deck_name := None |}
  ∧ st_totalReviews (stats_of sample_store) = Some 0
  ∧ st_totalReviews
      (stats_of (update_card t0 "bio-1a2b3c" "bio-1a2b3c-0" 7 sample_store).1) = Some 1
  ∧ load_deck (update_card t0 "bio-1a2b3c" "bio-1a2b3c-0" 7 sample_store).1 "bio-1a2b3c"
    ≠ load_deck sample_store "bio-1a2b3c".
Proof.
  split; [vm_compute; reflexivity|].
  split; [vm_compute; reflexivity|].
  split; [vm_compute; reflexivity|].
  vm_compute. discriminate.
Qed.

(** C1, amended: a rating outside 0..3 raises nothing.  It takes the branch of
    a successful recall in which no rating matches: the card keeps its
    interval and its ease (rounded to two decimals), gains one repetition and
    a due date, and the deck record and the statistics are written as for any
    review. *)
Theorem invalid_rating_is_reviewed now id cid rating (s : store) dk idx c due :
  ¬ valid_rating rating →
  load_deck s id = Some (DeckDoc dk) →
  find_card cid 0 (d_cards dk) = Some (idx, c) →
  add_days now (interval_of c) = Return due →
  id ≠ "decks" → index_ok s →
  let c' :=
    {| c_id := c_id c; c_front := c_front c; c_back := c_back c;
       c_interval := Some (interval_of c); c_ease := Some (py_round2 (ease_of c));
       c_due := Some due; c_reps := Some (reps_of c + 1);
       c_created := c_created c;
       c_lastReview := Some now; c_lastRating := Some rating;
       c_deck_id := c_deck_id c; c_deck_name := c_deck_name c |} in
  update_card now id cid rating s =
    (save_decks
       {| r_decks := r_decks (index_of s);
          r_stats := update_stats (date_of now) (stats_of s) |}
       (save_deck id
          {| d_id := d_id dk; d_name := d_name dk; d_source := d_source dk;
             d_cards := <[idx := c']> (d_cards dk); d_created := d_created dk |} s),
     Return c').
Proof.
  intros Hv Hd Hf Hdue Hne Hi c'.
  apply (update_card_run now id cid rating s dk idx c c' Hd Hf); [|exact Hne|exact Hi].
  unfold review_card. fold (interval_of c) (ease_of c) (reps_of c).
  rewrite sm2_invalid by exact Hv. cbn. rewrite Hdue. reflexivity.
Qed.

Lemma invalid_rating_is_reviewed_witness :
  update_card t0 "bio-1a2b3c" "bio-1a2b3c-0" 7 sample_store =
    (save_decks
       {| r_decks := r_decks (index_of sample_store);
          r_stats := update_stats (date_of t0) (stats_of sample_store) |}
       (save_deck "bio-1a2b3c"
          {| d_id := "bio-1a2b3c"; d_name := "Bio"; d_source := "manual";
             d_cards :=
               <[0%nat :=
                  {| c_id := "bio-1a2b3c-0"; c_front := "cell"; c_back := "unit of life";
                     c_interval := Some 1; c_ease := Some (py_round2 2.5);
                     c_due := Some (t0 + day_us); c_reps := Some (0 + 1); c_created := t0;
                     c_lastReview := Some t0; c_lastRating := Some 7;
                     c_deck_id := None; c_deck_name := None |}]>
               (imap (init_card "bio-1a2b3c" t0) [("cell", "unit of life"); ("dna", "genome")]);
             d_created := t0 |} sample_store),
     Return
       {| c_id := "bio-1a2b3c-0"; c_front := "cell"; c_back := "unit of life";
          c_interval := Some 1; c_ease := Some (py_round2 2.5);
          c_due := Some (t0 + day_us); c_reps := Some (0 + 1); c_created := t0;
          c_lastReview := Some t0; c_lastRating := Some 7;
          c_deck_id := None; c_deck_name := None |}).
Proof.
  apply (invalid_rating_is_reviewed t0 "bio-1a2b3c" "bio-1a2b3c-0" 7 sample_store
           {| d_id := "bio-1a2b3c"; d_name := "Bio"; d_source := "manual";
              d_cards := imap (init_card "bio-1a2b3c" t0)
                           [("cell", "unit of life"); ("dna", "genome")];
              d_created := t0 |}
           0%nat (init_card "bio-1a2b3c" t0 0 ("cell", "unit of life")) (t0 + day_us)).
  - unfold valid_rating. lia.
  - vm_compute. reflexivity.
  - vm_compute. reflexivity.
  - vm_compute. reflexivity.
  - discriminate.
  - vm_compute. exact I.
Defined.

(** C2, counterexample: with a negative ease the code truncates the product
    toward zero, [int(-2.5) = -2], where the table's floor gives [-3]. *)
Lemma floor_differs_on_negative_ease :
  sm2 1 (-2.5) 2 (rating_value Good) = Return (-2, (-2.5)%float, 3)
  ∧ sm2_table py_floor 1 (-2.5) 2 Good = Return (-3, (-2.5)%float, 3).
Proof. split; vm_compute; reflexivity. Qed.

(** C2, amended: for every interval >= 1, ease and reps >= 0 and every valid
    rating, [update_card] computes the new (interval, ease, reps) by the SM-2
    table with the products truncated toward zero (Python's [int]); this is
    the table's floor whenever the ease is not negative.  The values are
    stored in the card, the ease rounded to two decimals.  From
    (1, 2.5, 0), three Good ratings give the intervals 1, 6, 15. *)
Theorem sm2_follows_table i e reps r :
  1 ≤ i → 0 ≤ reps →
  sm2 i e reps (rating_value r) = sm2_table py_int i e reps r
  ∧ (PrimFloat.ltb e 0 = false →
     sm2 i e reps (rating_value r) = sm2_table py_floor i e reps r)
  ∧ (∀ now id cid (s s' : store) c',
       update_card now id cid (rating_value r) s = (s', Return c') →
       ∃ dk idx c i' e' r',
         load_deck s id = Some (DeckDoc dk)
         ∧ find_card cid 0 (d_cards dk) = Some (idx, c)
         ∧ sm2 (interval_of c) (ease_of c) (reps_of c) (rating_value r) = Return (i', e', r')
         ∧ c_interval c' = Some i' ∧ c_ease c' = Some (py_round2 e') ∧ c_reps c' = Some r')
  ∧ sm2 1 2.5 0 (rating_value Good) = Return (1, 2.5%float, 1)
  ∧ sm2 1 2.5 1 (rating_value Good) = Return (6, 2.5%float, 2)
  ∧ sm2 6 2.5 2 (rating_value Good) = Return (15, 2.5%float, 3)
  ∧ py_round2 2.5 = 2.5%float.
Proof.
  intros Hi Hreps.
  split; [apply sm2_table_int|].
  split; [intros He; rewrite sm2_table_floor by (lia || exact He); apply sm2_table_int|].
  split.
  { intros now id cid s s' c' H.
    destruct (update_card_Return _ _ _ _ _ _ _ H) as (dk & idx & c & Hd & Hf & Hr & _).
    destruct (review_card_sm2 _ _ _ _ Hr) as (i' & e' & r' & Hs & _ & Ei & Ee & Er & _).
    exists dk, idx, c, i', e', r'. auto 10. }
  repeat split; vm_compute; reflexivity.
Qed.

Lemma sm2_follows_table_witness :
  sm2 6 2.5 2 (rating_value Good) = sm2_table py_floor 6 2.5 2 Good.
Proof.
  apply (proj1 (proj2 (sm2_follows_table 6 2.5 2 Good ltac:(lia) ltac:(lia)))).
  reflexivity.
Defined.

(** C3: [ease >= 1.3] and [interval >= 1] are kept by every review with a
    valid rating, the stored ease being the rounded one; hence they hold
    after any sequence of valid ratings from the creation defaults. *)
Theorem ease_interval_invariant now id cid rating (s s' : store) dk idx c c' :
  load_deck s id = Some (DeckDoc dk) →
  find_card cid 0 (d_cards dk) = Some (idx, c) →
  card_inv c → valid_rating rating →
  update_card now id cid rating s = (s', Return c') →
  card_inv c'
  ∧ (∃ dk', load_deck s' id = Some (DeckDoc dk') ∧ d_cards dk' !! idx = Some c')
  ∧ (∀ deck_id t i fb log c'',
       Forall (λ x, valid_rating x.2) log →
       review_seq (init_card deck_id t i fb) log = Return c'' →
       PrimFloat.leb 1.3 (ease_of c'') = true ∧ 1 ≤ interval_of c'').
Proof.
  intros Hd Hf Hc Hv H.
  destruct (update_card_Return _ _ _ _ _ _ _ H) as (dk0 & idx0 & c0 & Hd0 & Hf0 & Hr & Hne & _ & ->).
  rewrite Hd in Hd0. injection Hd0 as <-. rewrite Hf in Hf0. injection Hf0 as <- <-.
  split; [eapply review_card_inv; eauto|]. split.
  - eexists. split.
    + rewrite load_deck_save_decks by exact Hne. apply load_deck_save_deck.
    + cbn. apply list_lookup_insert_eq.
      apply find_card_lookup in Hf as (_ & Hl & _).
      rewrite Nat.sub_0_r in Hl. eapply lookup_lt_Some, Hl.
  - intros deck_id t i fb log c'' Hlog Hseq.
    exact (review_seq_inv log _ _ Hlog (init_card_inv deck_id t i fb) Hseq).
Qed.

(** C6: with interval >= 1 and ease >= 1.3, a Good or Easy review of a card
    with at least two repetitions gives an interval not below the old one. *)
Theorem interval_monotone_on_success now id cid rating (s s' : store) dk idx c c' :
  load_deck s id = Some (DeckDoc dk) →
  find_card cid 0 (d_cards dk) = Some (idx, c) →
  1 ≤ interval_of c → PrimFloat.leb 1.3 (ease_of c) = true →
  rating = 2 ∨ rating = 3 → 2 ≤ reps_of c →
  update_card now id cid rating s = (s', Return c') →
  ∃ i', c_interval c' = Some i' ∧ interval_of c ≤ i'.
Proof.
  intros Hd Hf Hi He Hr Hreps H.
  destruct (update_card_Return _ _ _ _ _ _ _ H) as (dk0 & idx0 & c0 & Hd0 & Hf0 & Hrev & _).
  rewrite Hd in Hd0. injection Hd0 as <-. rewrite Hf in Hf0. injection Hf0 as <- <-.
  destruct (review_card_sm2 _ _ _ _ Hrev) as (i' & e' & r' & Hs & _ & Ei & _).
  exists i'. split; [exact Ei|]. eapply sm2_monotone; eauto.
Qed.

(** * The claims about statistics, queries and the store *)

Lemma stats_of_save_decks r (s : store) : stats_of (save_decks r s) = r_stats r.
Proof. unfold stats_of, index_of. rewrite load_decks_save_decks. reflexivity. Qed.

Lemma index_of_save_decks r (s : store) : index_of (save_decks r s) = r.
Proof. unfold index_of. rewrite load_decks_save_decks. reflexivity. Qed.

Lemma update_card_stats now id cid rating (s s' : store) c' :
  update_card now id cid rating s = (s', Return c') →
  stats_of s' = update_stats (date_of now) (stats_of s)
  ∧ r_decks (index_of s') = r_decks (index_of s).
Proof.
  intros H. destruct (update_card_Return _ _ _ _ _ _ _ H) as (dk & idx & c & _ & _ & _ & _ & _ & ->).
  rewrite stats_of_save_decks, index_of_save_decks. auto.
Qed.

(** C4: on every successful review [totalReviews] and the day's activity
    count grow by one; the streak grows by one when the last study was the
    day before, becomes 1 after a longer gap or with no last study, and is
    left alone when the last study was the same day. *)
Theorem review_updates_stats now id cid rating (s s' : store) c' :
  update_card now id cid rating s = (s', Return c') →
  let today := date_of now in
  let st := stats_of s in
  let st' := stats_of s' in
  st_totalReviews st' = Some (default 0 (st_totalReviews st) + 1)
  ∧ activity_of st' today = activity_of st today + 1
  ∧ st_lastStudy st' = Some today
  ∧ (∀ d, st_lastStudy st = Some d → today - d = 1 →
          st_streak st' = Some (streak_of st + 1))
  ∧ (∀ d, st_lastStudy st = Some d → 1 < today - d → st_streak st' = Some 1)
  ∧ (st_lastStudy st = None → st_streak st' = Some 1)
  ∧ (st_lastStudy st = Some today → st_streak st' = st_streak st).
Proof.
  intros H today st st'.
  destruct (update_card_stats _ _ _ _ _ _ _ H) as [E _].
  unfold st'. rewrite E. fold st today. clear.
  unfold update_stats, activity_of, streak_of.
  destruct (st_lastStudy st) as [d|] eqn:Hl; cbn.
  - destruct (Z.eqb_spec d today) as [->|Hne]; cbn.
    + rewrite lookup_insert_eq. cbn.
      repeat split; try reflexivity; intros; try congruence.
      * assert (d = today) by congruence. lia.
      * assert (d = today) by congruence. lia.
    + rewrite lookup_insert_eq. cbn.
      repeat split; try reflexivity.
      * intros d' [= <-] Hd. apply Z.eqb_eq in Hd. rewrite Hd. reflexivity.
      * intros d' [= <-] Hd.
        destruct (Z.eqb_spec (today - d) 1); [lia|].
        apply Z.ltb_lt in Hd. rewrite Hd. reflexivity.
      * discriminate.
      * congruence.
  - rewrite lookup_insert_eq. cbn. repeat split; try reflexivity; discriminate.
Qed.

Lemma is_due_due_pred now c : is_due now c = true ↔ due_pred now c.
Proof.
  unfold is_due, due_pred. destruct (c_due c) as [t|].
  - rewrite Z.leb_le. split; [intros H; right; eauto|].
    intros [H|(t' & [= <-] & H)]; [discriminate | exact H].
  - split; auto.
Qed.

Lemma scan_cards_spec now id name cards acc :
  scan_cards now id name cards acc
  = (acc ++ (annotate id name <$> filter (λ c, is_due now c = true) cards))%list.
Proof.
  revert acc. induction cards as [|c cards IH]; intros acc; simpl.
  - rewrite app_nil_r. reflexivity.
  - rewrite IH. rewrite filter_cons.
    destruct (is_due now c); destruct (decide _); try congruence.
    rewrite fmap_cons, <- app_assoc. reflexivity.
Qed.

Lemma due_of_index_cons now (s : store) m metas :
  due_of_index now s (m :: metas)
  = (match load_deck s (m_id m) with
     | Some (DeckDoc dk) => due_of now (m_id m) dk
     | _ => []
     end ++ due_of_index now s metas)%list.
Proof. reflexivity. Qed.

Lemma scan_index_spec now (s : store) metas acc :
  Forall (entry_ok s) metas →
  scan_index now s metas acc = Return (acc ++ due_of_index now s metas)%list.
Proof.
  revert acc. induction metas as [|m metas IH]; intros acc Hok.
  - cbn. rewrite app_nil_r. reflexivity.
  - apply Forall_cons in Hok as [Hm Hok]. rewrite due_of_index_cons.
    cbn [scan_index]. unfold entry_ok in Hm.
    destruct (load_deck s (m_id m)) as [[dk|r]|]; [|contradiction|].
    + cbn. rewrite IH by exact Hok. rewrite scan_cards_spec, <- app_assoc. reflexivity.
    + rewrite IH by exact Hok. reflexivity.
Qed.

(** C5: [get_due_cards] returns exactly the cards whose [due] is null or
    not after [now], of the named deck when a (non-empty) deck id is given
    and of all indexed decks otherwise, in index order and then card order; a
    freshly created card is among them. *)
Theorem get_due_cards_spec now (s : store) :
  (∀ id dk, id ≠ "" → load_deck s id = Some (DeckDoc dk) →
     get_due_cards now (Some id) s = Return (due_of now id dk))
  ∧ (∀ id, id ≠ "" → load_deck s id = None → get_due_cards now (Some id) s = Return [])
  ∧ (index_ok s → Forall (entry_ok s) (r_decks (index_of s)) →
     get_due_cards now None s = Return (due_of_index now s (r_decks (index_of s))))
  ∧ (∀ c, is_due now c = true ↔ due_pred now c)
  ∧ (∀ id dk c', c' ∈ due_of now id dk ↔
       ∃ c, c ∈ d_cards dk ∧ due_pred now c ∧ c' = annotate id (d_name dk) c)
  ∧ (∀ id dk c, c ∈ d_cards dk → c_due c = None →
       annotate id (d_name dk) c ∈ due_of now id dk)
  ∧ (∀ deck_id t i fb, c_due (init_card deck_id t i fb) = None).
Proof.
  assert (Hmem : ∀ id dk c', c' ∈ due_of now id dk ↔
       ∃ c, c ∈ d_cards dk ∧ due_pred now c ∧ c' = annotate id (d_name dk) c).
  { intros id dk c'. unfold due_of. rewrite list_elem_of_fmap. split.
    - intros (c & -> & Hc). apply list_elem_of_filter in Hc as [Hd Hc].
      exists c. rewrite <- is_due_due_pred. auto.
    - intros (c & Hc & Hd & ->). exists c. split; [reflexivity|].
      apply list_elem_of_filter. rewrite is_due_due_pred. auto. }
  repeat split.
  - intros id dk Hid Hd. unfold get_due_cards.
    destruct id; [congruence|]. cbn. rewrite Hd. cbn.
    rewrite scan_cards_spec. reflexivity.
  - intros id Hid Hd. unfold get_due_cards.
    destruct id; [congruence|]. cbn. rewrite Hd. reflexivity.
  - intros Hi Hok. unfold get_due_cards. cbn.
    unfold index_of, index_ok, load_decks in *.
    destruct (s !! index_path) as [[dk|r]|]; [contradiction| |reflexivity].
    change (scan_index now s (r_decks r) [] = Return (due_of_index now s (r_decks r))).
    rewrite scan_index_spec by exact Hok. reflexivity.
  - apply is_due_due_pred.
  - apply is_due_due_pred.
  - apply Hmem.
  - apply Hmem.
  - intros id dk c Hc Hd. apply Hmem. exists c. split; [exact Hc|].
    split; [left; exact Hd | reflexivity].
Qed.


Lemma filter_ne_idemp id (l : list deck_meta) :
  filter (λ d, m_id d ≠ id) (filter (λ d, m_id d ≠ id) l) = filter (λ d, m_id d ≠ id) l.
Proof.
  induction l as [|m l IH]; [reflexivity|].
  rewrite filter_cons. destruct (decide (m_id m ≠ id)) as [H|H]; [|exact IH].
  rewrite filter_cons_True by exact H. f_equal. exact IH.
Qed.

Lemma filter_ne_Forall id (l : list deck_meta) :
  Forall (λ m, m_id m ≠ id) (filter (λ d, m_id d ≠ id) l).
Proof.
  apply Forall_forall. intros m Hm. apply list_elem_of_filter in Hm as [H _]. exact H.
Qed.

Lemma deck_path_decks : deck_path "decks" = index_path.
Proof. reflexivity. Qed.

(** [delete_deck] on a store whose index is readable once the deck file is gone. *)
Lemma delete_deck_run id (s : store) :
  id = "decks" ∨ index_ok s →
  delete_deck id s =
    (save_decks
       {| r_decks := filter (λ d, m_id d ≠ id) (r_decks (index_of (delete (deck_path id) s)));
          r_stats := stats_of (delete (deck_path id) s) |}
       (delete (deck_path id) s),
     Return true).
Proof.
  intros H. unfold delete_deck, stats_of, index_of.
  assert (Hi : index_ok (delete (deck_path id) s)).
  { unfold index_ok. destruct H as [->|H].
    - rewrite deck_path_decks, lookup_delete_eq. exact I.
    - destruct (decide (deck_path id = index_path)) as [E|E].
      + rewrite E, lookup_delete_eq. exact I.
      + rewrite lookup_delete_ne by exact E. exact H. }
  unfold index_ok in Hi. unfold load_decks.
  destruct (delete (deck_path id) s !! index_path) as [[dk|r]|];
    [contradiction|reflexivity|reflexivity].
Qed.

(** C8: [delete_deck] can be repeated: the second call returns [True] as the
    first, changes nothing, and the index holds no entry for the id. *)
Theorem delete_deck_idempotent id (s : store) :
  id = "decks" ∨ index_ok s →
  ∃ s1,
    delete_deck id s = (s1, Return true)
    ∧ delete_deck id s1 = (s1, Return true)
    ∧ Forall (λ m, m_id m ≠ id) (r_decks (index_of s1))
    ∧ (id ≠ "decks" → load_deck s1 id = None)
    ∧ (load_deck s id = None → id ≠ "decks" → delete (deck_path id) s = s).
Proof.
  intros H. eexists. split; [apply delete_deck_run, H|].
  set (s0 := delete (deck_path id) s).
  set (r1 := {| r_decks := filter (λ d, m_id d ≠ id) (r_decks (index_of s0));
                r_stats := stats_of s0 |}).
  split; [|split; [|split]].
  - rewrite delete_deck_run; [|right; unfold index_ok, save_decks;
                                rewrite lookup_insert_eq; exact I].
    assert (E : delete (deck_path id) (save_decks r1 s0) = save_decks r1 s0
                ∨ (id = "decks" ∧ delete (deck_path id) (save_decks r1 s0) = s0)).
    { destruct (decide (id = "decks")) as [->|Hne].
      - right. split; [reflexivity|]. unfold save_decks, s0.
        rewrite deck_path_decks, delete_insert_eq, delete_delete_eq. reflexivity.
      - left. unfold save_decks, s0.
        rewrite delete_insert_ne by (intros E; apply Hne, deck_path_index, E).
        rewrite delete_delete_eq. reflexivity. }
    destruct E as [E|[-> E]]; rewrite E.
    + rewrite index_of_save_decks, stats_of_save_decks. cbn [r_decks r_stats r1].
      rewrite filter_ne_idemp. unfold save_decks. rewrite insert_insert_eq. reflexivity.
    + reflexivity.
  - rewrite index_of_save_decks. apply filter_ne_Forall.
  - intros Hne. rewrite load_deck_save_decks by exact Hne. apply lookup_delete_eq.
  - intros Hl _. apply delete_id, Hl.
Qed.







Lemma get_dashboard_data_index now (s : store) r tot sums :
  load_decks s = IndexDoc r →
  summarize now s (r_decks r) (0, 0, 0) [] = Return (tot, sums) →
  get_dashboard_data now s =
    Return {| totalCards := tot.1.1; dueToday := tot.1.2; mastered := tot.2;
              streak := default 0 (st_streak (r_stats r));
              decks := sums;
              activity := default ∅ (st_activity (r_stats r)) |}.
Proof.
  intros H1 H2. unfold get_dashboard_data. rewrite H1.
  cbn [doc_decks mbind outcome_bind]. rewrite H2. reflexivity.
Qed.


(** * Cards without scheduling fields *)










Lemma sm2_defaults r :
  ∃ i' e' r', sm2 1 2.5 0 (rating_value r) = Return (i', e', r') ∧ 1 ≤ i' ≤ 4.
Proof. destruct r; eexists _, _, _; (split; [vm_compute; reflexivity | lia]). Qed.


(** * Instances on the sample stores *)

Lemma ease_interval_invariant_witness : card_inv sample_card3.
Proof.
  exact (proj1 (ease_interval_invariant (t0 + 7 * day_us) "bio-1a2b3c" "bio-1a2b3c-0" 2
    sample_reviewed
    (update_card (t0 + 7 * day_us) "bio-1a2b3c" "bio-1a2b3c-0" 2 sample_reviewed).1
    sample_deck2
    0%nat sample_card2 sample_card3
    ltac:(vm_compute; reflexivity) ltac:(vm_compute; reflexivity)
    ltac:(split; [reflexivity | unfold interval_of; simpl; lia])
    ltac:(unfold valid_rating; lia)
    ltac:(vm_compute; reflexivity))).
Defined.

Lemma interval_monotone_on_success_witness :
  ∃ i', c_interval sample_card3 = Some i' ∧ interval_of sample_card2 ≤ i'.
Proof.
  exact (interval_monotone_on_success (t0 + 7 * day_us) "bio-1a2b3c" "bio-1a2b3c-0" 2
    sample_reviewed
    (update_card (t0 + 7 * day_us) "bio-1a2b3c" "bio-1a2b3c-0" 2 sample_reviewed).1
    sample_deck2
    0%nat sample_card2 sample_card3
    ltac:(vm_compute; reflexivity) ltac:(vm_compute; reflexivity)
    ltac:(unfold interval_of; simpl; lia) ltac:(reflexivity)
    ltac:(left; reflexivity) ltac:(unfold reps_of; simpl; lia)
    ltac:(vm_compute; reflexivity)).
Defined.

Lemma review_updates_stats_witness :
  st_totalReviews
    (stats_of (update_card (t0 + 7 * day_us) "bio-1a2b3c" "bio-1a2b3c-0" 2 sample_reviewed).1)
  = Some (default 0 (st_totalReviews (stats_of sample_reviewed)) + 1).
Proof.
  exact (proj1 (review_updates_stats (t0 + 7 * day_us) "bio-1a2b3c" "bio-1a2b3c-0" 2
    sample_reviewed
    (update_card (t0 + 7 * day_us) "bio-1a2b3c" "bio-1a2b3c-0" 2 sample_reviewed).1
    sample_card3 ltac:(vm_compute; reflexivity))).
Defined.

Lemma get_due_cards_spec_witness :
  get_due_cards t0 (Some "bio-1a2b3c") sample_store
  = Return (due_of t0 "bio-1a2b3c" sample_deck).
Proof.
  apply (proj1 (get_due_cards_spec t0 sample_store) "bio-1a2b3c" sample_deck).
  - discriminate.
  - vm_compute. reflexivity.
Defined.

Lemma delete_deck_idempotent_witness :
  ∃ s1,
    delete_deck "bio-1a2b3c" sample_store = (s1, Return true)
    ∧ delete_deck "bio-1a2b3c" s1 = (s1, Return true)
    ∧ Forall (λ m, m_id m ≠ "bio-1a2b3c") (r_decks (index_of s1))
    ∧ ("bio-1a2b3c" ≠ "decks" → load_deck s1 "bio-1a2b3c" = None)
    ∧ (load_deck sample_store "bio-1a2b3c" = None → "bio-1a2b3c" ≠ "decks" →
       delete (deck_path "bio-1a2b3c") sample_store = sample_store).
Proof.
  apply (delete_deck_idempotent "bio-1a2b3c" sample_store).
  right. vm_compute. exact I.
Defined.


(** * Further properties of reviews *)

Lemma sm2_reps i e reps rating i' e' r' :
  sm2 i e reps rating = Return (i', e', r') →
  r' = if rating =? 0 then 0 else reps + 1.
Proof.
  unfold sm2. destruct (rating =? 0); [intros [= _ _ <-]; reflexivity|].
  destruct (rating =? 1).
  { destruct (py_float i) as [f|]; [|discriminate]. cbn.
    destruct (py_int (f * 1.2)); [|discriminate]. cbn. intros [= _ _ <-]. reflexivity. }
  destruct (rating =? 2).
  { destruct (reps + 1 =? 1); [intros [= _ _ <-]; reflexivity|].
    destruct (reps + 1 =? 2); [intros [= _ _ <-]; reflexivity|].
    destruct (py_float i) as [f|]; [|discriminate]. cbn.
    destruct (py_int (f * e)); [|discriminate]. cbn. intros [= _ _ <-]. reflexivity. }
  destruct (rating =? 3); [|intros [= _ _ <-]; reflexivity].
  destruct (reps + 1 =? 1); [intros [= _ _ <-]; reflexivity|].
  destruct (py_float i) as [f|]; [|discriminate]. cbn.
  destruct (py_int (f * e * 1.3)); [|discriminate]. cbn. intros [= _ _ <-]. reflexivity.
Qed.

Lemma update_card_found now id cid rating (s s' : store) dk idx c c' :
  load_deck s id = Some (DeckDoc dk) →
  find_card cid 0 (d_cards dk) = Some (idx, c) →
  update_card now id cid rating s = (s', Return c') →
  review_card now c rating = Return c'
  ∧ id ≠ "decks" ∧ index_ok s
  ∧ s' = save_decks
           {| r_decks := r_decks (index_of s);
              r_stats := update_stats (date_of now) (stats_of s) |}
           (save_deck id
              {| d_id := d_id dk; d_name := d_name dk; d_source := d_source dk;
                 d_cards := <[idx := c']> (d_cards dk); d_created := d_created dk |} s).
Proof.
  intros Hd Hf H.
  destruct (update_card_Return _ _ _ _ _ _ _ H) as (dk0 & idx0 & c0 & Hd0 & Hf0 & Hr & Hne & Hi & ->).
  rewrite Hd in Hd0. injection Hd0 as <-. rewrite Hf in Hf0. injection Hf0 as <- <-.
  auto.
Qed.

(** X1: Again clears the repetition count; every other rating adds one to it. *)
Theorem reps_reset_or_increment now id cid rating (s s' : store) dk idx c c' :
  load_deck s id = Some (DeckDoc dk) →
  find_card cid 0 (d_cards dk) = Some (idx, c) →
  update_card now id cid rating s = (s', Return c') →
  (rating = 0 → c_reps c' = Some 0)
  ∧ (rating ≠ 0 → c_reps c' = Some (reps_of c + 1)).
Proof.
  intros Hd Hf H. destruct (update_card_found _ _ _ _ _ _ _ _ _ _ Hd Hf H) as (Hr & _).
  destruct (review_card_sm2 _ _ _ _ Hr) as (i' & e' & r' & Hs & _ & _ & _ & Er & _).
  apply sm2_reps in Hs. rewrite Er, Hs. split.
  - intros ->. reflexivity.
  - intros Hne. apply Z.eqb_neq in Hne. rewrite Hne. reflexivity.
Qed.

Lemma reps_reset_or_increment_witness :
  (2 = 0 → c_reps sample_card3 = Some 0)
  ∧ (2 ≠ 0 → c_reps sample_card3 = Some (reps_of sample_card2 + 1)).
Proof.
  exact (reps_reset_or_increment (t0 + 7 * day_us) "bio-1a2b3c" "bio-1a2b3c-0" 2
    sample_reviewed
    (update_card (t0 + 7 * day_us) "bio-1a2b3c" "bio-1a2b3c-0" 2 sample_reviewed).1
    sample_deck2 0%nat sample_card2 sample_card3
    ltac:(vm_compute; reflexivity) ltac:(vm_compute; reflexivity)
    ltac:(vm_compute; reflexivity)).
Defined.

(** A review that raises leaves the data directory as it was. *)
Lemma update_card_Raise now id cid rating (s s' : store) e :
  index_ok s → update_card now id cid rating s = (s', Raise e) → s' = s.
Proof.
  intros Hi. unfold update_card.
  destruct (load_deck s id) as [[dk|r]|] eqn:Hd; try (intros [= <- _]; reflexivity).
  destruct (find_card cid 0 (d_cards dk)) as [[idx c]|]; try (intros [= <- _]; reflexivity).
  destruct (review_card now c rating) as [c1|e1]; try (intros [= <- _]; reflexivity).
  destruct (decide (id = "decks")) as [->|Hne].
  - exfalso. unfold index_ok in Hi. unfold load_deck in Hd.
    rewrite deck_path_decks in Hd. rewrite Hd in Hi. exact Hi.
  - rewrite load_decks_save_deck by exact Hne.
    unfold index_ok in Hi. unfold load_decks.
    destruct (s !! index_path) as [[dk0|r0]|]; [contradiction| |]; discriminate.
Qed.

(** X2: when [update_card] raises, nothing was written; a missing deck and a
    missing card are reported as [ValueError]s naming the id. *)
Theorem failed_review_writes_nothing now id cid rating (s s' : store) e :
  index_ok s →
  update_card now id cid rating s = (s', Raise e) →
  s' = s
  ∧ (load_deck s id = None → e = ValueError ("Deck not found: " ++ id))
  ∧ (∀ dk, load_deck s id = Some (DeckDoc dk) →
           find_card cid 0 (d_cards dk) = None →
           e = ValueError ("Card not found: " ++ cid)).
Proof.
  intros Hi H. split; [eapply update_card_Raise; eauto|]. split.
  - intros Hd. unfold update_card in H. rewrite Hd in H. congruence.
  - intros dk Hd Hf. unfold update_card in H. rewrite Hd, Hf in H. congruence.
Qed.

Lemma failed_review_writes_nothing_witness :
  sample_store = sample_store
  ∧ (load_deck sample_store "geo-4d5e6f" = None →
     ValueError "Deck not found: geo-4d5e6f" = ValueError ("Deck not found: " ++ "geo-4d5e6f"))
  ∧ (∀ dk, load_deck sample_store "geo-4d5e6f" = Some (DeckDoc dk) →
           find_card "x" 0 (d_cards dk) = None →
           ValueError "Deck not found: geo-4d5e6f" = ValueError ("Card not found: " ++ "x")).
Proof.
  exact (failed_review_writes_nothing t0 "geo-4d5e6f" "x" 2 sample_store sample_store
           (ValueError "Deck not found: geo-4d5e6f")
           ltac:(vm_compute; exact I) ltac:(vm_compute; reflexivity)).
Defined.

Lemma find_card_first cid i cards idx c :
  find_card cid i cards = Some (idx, c) →
  ∀ j cj, (j < idx - i)%nat → cards !! j = Some cj → c_id cj ≠ cid.
Proof.
  revert i. induction cards as [|c0 cards IH]; intros i H j cj Hj Hl; [discriminate|].
  cbn in H. destruct (String.eqb (c_id c0) cid) eqn:E.
  - injection H as <- <-. lia.
  - destruct j as [|j].
    + injection Hl as <-. apply String.eqb_neq, E.
    + apply (IH (S i) H j cj); [lia | exact Hl].
Qed.

(** X3: a successful review rewrites one card, the first with the given id:
    the other cards of the deck, the deck's own fields, the other decks, the
    index entries and the card's id, texts and creation time stay as they were. *)
Theorem review_changes_one_card now id cid rating (s s' : store) c' :
  update_card now id cid rating s = (s', Return c') →
  ∃ dk idx c,
    load_deck s id = Some (DeckDoc dk)
    ∧ d_cards dk !! idx = Some c ∧ c_id c = cid
    ∧ (∀ j cj, (j < idx)%nat → d_cards dk !! j = Some cj → c_id cj ≠ cid)
    ∧ load_deck s' id =
        Some (DeckDoc {| d_id := d_id dk; d_name := d_name dk; d_source := d_source dk;
                         d_cards := <[idx := c']> (d_cards dk);
                         d_created := d_created dk |})
    ∧ length (<[idx := c']> (d_cards dk)) = length (d_cards dk)
    ∧ (∀ j, j ≠ idx → <[idx := c']> (d_cards dk) !! j = d_cards dk !! j)
    ∧ (∀ id', id' ≠ id → id' ≠ "decks" → load_deck s' id' = load_deck s id')
    ∧ r_decks (index_of s') = r_decks (index_of s)
    ∧ c_id c' = c_id c ∧ c_front c' = c_front c ∧ c_back c' = c_back c
    ∧ c_created c' = c_created c.
Proof.
  intros H.
  destruct (update_card_Return _ _ _ _ _ _ _ H) as (dk & idx & c & Hd & Hf & Hr & Hne & Hi & ->).
  exists dk, idx, c. split; [exact Hd|].
  destruct (find_card_lookup _ _ _ _ _ Hf) as (_ & Hl & Hid). rewrite Nat.sub_0_r in Hl.
  split; [exact Hl|]. split; [exact Hid|]. split.
  { intros j cj Hj. apply (find_card_first _ _ _ _ _ Hf). lia. }
  split; [rewrite load_deck_save_decks by exact Hne; apply load_deck_save_deck|].
  split; [apply length_insert|].
  split; [intros j Hj; apply list_lookup_insert_ne; congruence|].
  split.
  { intros id' H1 H2. rewrite load_deck_save_decks by exact H2.
    apply load_deck_save_deck_ne. congruence. }
  split; [rewrite index_of_save_decks; reflexivity|].
  unfold review_card in Hr.
  destruct (sm2 _ _ _ rating) as [[[i' e'] r']|]; [|discriminate]. cbn in Hr.
  destruct (add_days now i') as [due|]; [|discriminate]. cbn in Hr.
  injection Hr as <-. auto.
Qed.

Lemma review_changes_one_card_witness :
  ∃ dk idx c,
    load_deck sample_reviewed "bio-1a2b3c" = Some (DeckDoc dk)
    ∧ d_cards dk !! idx = Some c ∧ c_id c = "bio-1a2b3c-0"
    ∧ (∀ j cj, (j < idx)%nat → d_cards dk !! j = Some cj → c_id cj ≠ "bio-1a2b3c-0")
    ∧ load_deck (update_card (t0 + 7 * day_us) "bio-1a2b3c" "bio-1a2b3c-0" 2 sample_reviewed).1
        "bio-1a2b3c" =
        Some (DeckDoc {| d_id := d_id dk; d_name := d_name dk; d_source := d_source dk;
                         d_cards := <[idx := sample_card3]> (d_cards dk);
                         d_created := d_created dk |})
    ∧ length (<[idx := sample_card3]> (d_cards dk)) = length (d_cards dk)
    ∧ (∀ j, j ≠ idx → <[idx := sample_card3]> (d_cards dk) !! j = d_cards dk !! j)
    ∧ (∀ id', id' ≠ "bio-1a2b3c" → id' ≠ "decks" →
         load_deck (update_card (t0 + 7 * day_us) "bio-1a2b3c" "bio-1a2b3c-0" 2
                      sample_reviewed).1 id'
         = load_deck sample_reviewed id')
    ∧ r_decks (index_of (update_card (t0 + 7 * day_us) "bio-1a2b3c" "bio-1a2b3c-0" 2
                           sample_reviewed).1)
      = r_decks (index_of sample_reviewed)
    ∧ c_id sample_card3 = c_id c ∧ c_front sample_card3 = c_front c
    ∧ c_back sample_card3 = c_back c ∧ c_created sample_card3 = c_created c.
Proof.
  exact (review_changes_one_card (t0 + 7 * day_us) "bio-1a2b3c" "bio-1a2b3c-0" 2
    sample_reviewed
    (update_card (t0 + 7 * day_us) "bio-1a2b3c" "bio-1a2b3c-0" 2 sample_reviewed).1
    sample_card3 ltac:(vm_compute; reflexivity)).
Defined.

(** X4: after a review with a valid rating of a card with interval >= 1 and
    ease >= 1.3, the card is due again exactly from [now] plus its new
    interval in days, at least one day later; asked at the review time,
    [get_due_cards] no longer lists it. *)
Theorem reviewed_card_not_due now id cid rating (s s' : store) dk idx c c' :
  load_deck s id = Some (DeckDoc dk) →
  find_card cid 0 (d_cards dk) = Some (idx, c) →
  card_inv c → valid_rating rating → id ≠ "" →
  update_card now id cid rating s = (s', Return c') →
  ∃ i' cards,
    c_interval c' = Some i' ∧ 1 ≤ i'
    ∧ c_due c' = Some (now + i' * day_us)
    ∧ (∀ t, is_due t c' = true ↔ now + i' * day_us ≤ t)
    ∧ is_due now c' = false
    ∧ get_due_cards now (Some id) s' = Return cards
    ∧ annotate id (d_name dk) c' ∉ cards.
Proof.
  intros Hd Hf [He Hi] Hv Hid H.
  destruct (update_card_found _ _ _ _ _ _ _ _ _ _ Hd Hf H) as (Hr & Hne & _ & ->).
  destruct (review_card_sm2 _ _ _ _ Hr) as (i' & e' & r' & Hs & _ & Ei & _ & _ & Edue & _).
  destruct (sm2_inv _ _ _ _ _ _ _ Hv Hi He Hs) as [Hi' _].
  assert (Hday : 0 < day_us) by reflexivity.
  assert (Hnot : is_due now c' = false).
  { unfold is_due. rewrite Edue. apply Z.leb_gt. nia. }
  eexists i', _. split; [exact Ei|]. split; [exact Hi'|]. split; [exact Edue|].
  split; [intros t; unfold is_due; rewrite Edue; apply Z.leb_le|].
  split; [exact Hnot|]. split.
  - unfold get_due_cards. destruct id as [|a id]; [congruence|]. cbn [truthy].
    rewrite load_deck_save_decks by exact Hne. rewrite load_deck_save_deck.
    cbn [scan_deck d_name d_cards]. rewrite scan_cards_spec. reflexivity.
  - cbn [app]. intros Hin. apply list_elem_of_fmap in Hin as (c1 & E & Hin).
    apply list_elem_of_filter in Hin as [Hdue _].
    assert (E' : c_due c1 = c_due c') by (apply (f_equal c_due) in E; exact (eq_sym E)).
    unfold is_due in Hdue, Hnot. rewrite E' in Hdue. congruence.
Qed.

Lemma reviewed_card_not_due_witness :
  ∃ i' cards,
    c_interval sample_card3 = Some i' ∧ 1 ≤ i'
    ∧ c_due sample_card3 = Some (t0 + 7 * day_us + i' * day_us)
    ∧ (∀ t, is_due t sample_card3 = true ↔ t0 + 7 * day_us + i' * day_us ≤ t)
    ∧ is_due (t0 + 7 * day_us) sample_card3 = false
    ∧ get_due_cards (t0 + 7 * day_us) (Some "bio-1a2b3c")
        (update_card (t0 + 7 * day_us) "bio-1a2b3c" "bio-1a2b3c-0" 2 sample_reviewed).1
      = Return cards
    ∧ annotate "bio-1a2b3c" (d_name sample_deck2) sample_card3 ∉ cards.
Proof.
  exact (reviewed_card_not_due (t0 + 7 * day_us) "bio-1a2b3c" "bio-1a2b3c-0" 2
    sample_reviewed
    (update_card (t0 + 7 * day_us) "bio-1a2b3c" "bio-1a2b3c-0" 2 sample_reviewed).1
    sample_deck2 0%nat sample_card2 sample_card3
    ltac:(vm_compute; reflexivity) ltac:(vm_compute; reflexivity)
    ltac:(split; [reflexivity | unfold interval_of; simpl; lia])
    ltac:(unfold valid_rating; lia) ltac:(discriminate)
    ltac:(vm_compute; reflexivity)).
Defined.

(** X5: a due date outside the calendar ([datetime] ends with year 9999; a
    [timedelta] holds at most 999999999 days) makes the review raise
    [OverflowError], and nothing is written. *)
Theorem due_date_out_of_range now id cid rating (s : store) dk idx c i' e' r' :
  load_deck s id = Some (DeckDoc dk) →
  find_card cid 0 (d_cards dk) = Some (idx, c) →
  sm2 (interval_of c) (ease_of c) (reps_of c) rating = Return (i', e', r') →
  now + i' * day_us < 0 ∨ datetime_end ≤ now + i' * day_us →
  ∃ msg, update_card now id cid rating s = (s, Raise (OverflowError msg)).
Proof.
  intros Hd Hf Hs Hout. unfold update_card. rewrite Hd, Hf.
  unfold review_card. fold (interval_of c) (ease_of c) (reps_of c). rewrite Hs.
  cbn [mbind outcome_bind]. unfold add_days.
  destruct (999999999 <? Z.abs i'); [eauto|].
  destruct (Z.leb_spec 0 (now + i' * day_us));
    destruct (Z.ltb_spec (now + i' * day_us) datetime_end); cbn; eauto; lia.
Qed.

Lemma due_date_out_of_range_witness :
  ∃ msg, update_card t0 "far-0a1b2c" "far-0" 2 far_store
         = (far_store, Raise (OverflowError msg)).
Proof.
  exact (due_date_out_of_range t0 "far-0a1b2c" "far-0" 2 far_store far_deck 0%nat far_card
           7500000 2.5%float 10
           ltac:(vm_compute; reflexivity) ltac:(vm_compute; reflexivity)
           ltac:(vm_compute; reflexivity) ltac:(right; vm_compute; discriminate)).
Defined.

(** * The dashboard *)

Lemma count_nil P : count P [] = 0.
Proof. reflexivity. Qed.

Lemma count_cons P c cards :
  count P (c :: cards) = (if P c then 1 else 0) + count P cards.
Proof.
  unfold count. rewrite filter_cons.
  destruct (P c); destruct (decide _); try congruence; cbn [length]; lia.
Qed.

Lemma count_app P l1 l2 : count P (l1 ++ l2) = count P l1 + count P l2.
Proof. unfold count. rewrite filter_app, length_app. lia. Qed.

Lemma count_bounds P cards : 0 ≤ count P cards ≤ Z.of_nat (length cards).
Proof.
  induction cards as [|c cards IH]; [rewrite count_nil; cbn; lia|].
  rewrite count_cons. cbn [length]. destruct (P c); lia.
Qed.

Lemma is_new_is_due now c : is_new c = true → is_due now c = true.
Proof. unfold is_new, is_due. destruct (c_due c); [discriminate | reflexivity]. Qed.

Lemma count_new_le_due now cards : count is_new cards ≤ count (is_due now) cards.
Proof.
  induction cards as [|c cards IH]; [rewrite !count_nil; lia|].
  rewrite !count_cons. assert (H := is_new_is_due now c).
  destruct (is_new c); destruct (is_due now c); lia.
Qed.

Lemma count_card_spec now k c :
  count_card now k c =
    {| total_cards := total_cards k + 1;
       due_today := due_today k + bit (is_due now c);
       n_mastered := n_mastered k + bit (is_mastered c);
       deck_due := deck_due k + (bit (is_due now c) - bit (is_new c));
       deck_new := deck_new k + bit (is_new c);
       deck_mastered := deck_mastered k + bit (is_mastered c) |}.
Proof.
  unfold count_card, is_due, is_new, is_mastered, interval_of, bit.
  destruct (c_due c) as [t|]; [destruct (t <=? now)|];
    destruct (21 <? default 1 (c_interval c)); cbn; f_equal; lia.
Qed.

Lemma fold_count_card now cards k :
  fold_left (count_card now) cards k =
    {| total_cards := total_cards k + Z.of_nat (length cards);
       due_today := due_today k + count (is_due now) cards;
       n_mastered := n_mastered k + count is_mastered cards;
       deck_due := deck_due k + (count (is_due now) cards - count is_new cards);
       deck_new := deck_new k + count is_new cards;
       deck_mastered := deck_mastered k + count is_mastered cards |}.
Proof.
  revert k. induction cards as [|c cards IH]; intros k.
  - cbn [fold_left length]. rewrite !count_nil. destruct k; cbn. f_equal; lia.
  - cbn [fold_left]. rewrite IH, count_card_spec, !count_cons. cbn [length].
    cbn [total_cards due_today n_mastered deck_due deck_new deck_mastered].
    fold (bit (is_due now c)) (bit (is_new c)) (bit (is_mastered c)).
    f_equal; lia.
Qed.

Lemma cards_of_index_cons (s : store) m metas :
  cards_of_index s (m :: metas)
  = (match load_deck s (m_id m) with
     | Some (DeckDoc dk) => d_cards dk
     | _ => []
     end ++ cards_of_index s metas)%list.
Proof. reflexivity. Qed.

Lemma backed_entries_cons (s : store) m metas :
  backed_entries s (m :: metas)
  = (match load_deck s (m_id m) with
     | Some (DeckDoc dk) => [(m, dk)]
     | _ => []
     end ++ backed_entries s metas)%list.
Proof. reflexivity. Qed.

Lemma summarize_spec now (s : store) metas tot acc :
  Forall (entry_ok s) metas →
  summarize now s metas tot acc =
    Return (tot.1.1 + Z.of_nat (length (cards_of_index s metas)),
            tot.1.2 + count (is_due now) (cards_of_index s metas),
            tot.2 + count is_mastered (cards_of_index s metas),
            (acc ++ (summary_of now <$> backed_entries s metas))%list).
Proof.
  revert tot acc. induction metas as [|m metas IH]; intros [[a b] c] acc Hok.
  - cbn. rewrite !count_nil, app_nil_r, !Z.add_0_r. reflexivity.
  - apply Forall_cons in Hok as [Hm Hok].
    rewrite cards_of_index_cons, backed_entries_cons. cbn [summarize].
    unfold entry_ok in Hm.
    destruct (load_deck s (m_id m)) as [[dk|r]|]; [|contradiction|].
    + rewrite fold_count_card. cbn [total_cards due_today n_mastered deck_due deck_new
                                     deck_mastered fst snd].
      rewrite IH by exact Hok. cbn [fst snd].
      rewrite !count_app, length_app, fmap_app, <- app_assoc.
      cbn [app fmap list_fmap]. unfold summary_of at 2. cbn [fst snd].
      rewrite Nat2Z.inj_add, !Z.add_0_l, !Z.add_assoc. reflexivity.
    + rewrite IH by exact Hok. reflexivity.
Qed.

Lemma length_due_of_index now (s : store) metas :
  Z.of_nat (length (due_of_index now s metas))
  = count (is_due now) (cards_of_index s metas).
Proof.
  induction metas as [|m metas IH]; [reflexivity|].
  rewrite due_of_index_cons, cards_of_index_cons, length_app, count_app, Nat2Z.inj_add, IH.
  destruct (load_deck s (m_id m)) as [[dk|r]|]; try reflexivity.
  unfold due_of, count. rewrite length_fmap. reflexivity.
Qed.

(** X6: on a store whose index entries are usable, the dashboard counts what
    the decks hold: [totalCards] is the number of cards of the indexed decks,
    [dueToday] the number of cards [get_due_cards] returns for all decks,
    [mastered] the number with interval > 21; there is one line per deck
    that has a record, in index order, whose [due] and [new] add up to the
    deck's due cards; and due and mastered cards never exceed the total. *)
Theorem dashboard_counts now (s : store) :
  index_ok s → Forall (entry_ok s) (r_decks (index_of s)) →
  let cards := cards_of_index s (r_decks (index_of s)) in
  ∃ d due,
    get_dashboard_data now s = Return d
    ∧ get_due_cards now None s = Return due
    ∧ totalCards d = Z.of_nat (length cards)
    ∧ dueToday d = Z.of_nat (length due)
    ∧ dueToday d = count (is_due now) cards
    ∧ mastered d = count is_mastered cards
    ∧ decks d = summary_of now <$> backed_entries s (r_decks (index_of s))
    ∧ Forall (λ l, s_due l + s_new l ≤ s_cardCount l ∧ 0 ≤ s_due l ∧ 0 ≤ s_new l) (decks d)
    ∧ streak d = streak_of (stats_of s)
    ∧ 0 ≤ dueToday d ≤ totalCards d ∧ 0 ≤ mastered d ≤ totalCards d.
Proof.
  intros Hi Hok cards.
  assert (Hl : load_decks s = IndexDoc (index_of s)).
  { unfold index_of, index_ok, load_decks in *.
    destruct (s !! index_path) as [[dk|r]|]; [contradiction|reflexivity|reflexivity]. }
  eexists _, _. split.
  { eapply get_dashboard_data_index; [exact Hl|]. apply summarize_spec, Hok. }
  split.
  { unfold get_due_cards. cbn [truthy]. rewrite Hl. cbn [doc_decks mbind outcome_bind].
    apply scan_index_spec, Hok. }
  cbn [totalCards dueToday mastered decks streak fst snd app]. fold cards.
  assert (B1 := count_bounds (is_due now) cards).
  assert (B2 := count_bounds is_mastered cards).
  rewrite length_due_of_index. fold cards.
  repeat split; try lia.
  apply Forall_fmap, Forall_forall. intros [m dk] _. cbn.
  assert (B3 := count_bounds (is_due now) (d_cards dk)).
  assert (B4 := count_bounds is_new (d_cards dk)).
  assert (B5 := count_new_le_due now (d_cards dk)). lia.
Qed.

Lemma dashboard_counts_witness :
  ∃ d due,
    get_dashboard_data t0 sample_orphan = Return d
    ∧ get_due_cards t0 None sample_orphan = Return due
    ∧ totalCards d
      = Z.of_nat (length (cards_of_index sample_orphan (r_decks (index_of sample_orphan))))
    ∧ dueToday d = Z.of_nat (length due)
    ∧ dueToday d
      = count (is_due t0) (cards_of_index sample_orphan (r_decks (index_of sample_orphan)))
    ∧ mastered d
      = count is_mastered (cards_of_index sample_orphan (r_decks (index_of sample_orphan)))
    ∧ decks d
      = summary_of t0 <$> backed_entries sample_orphan (r_decks (index_of sample_orphan))
    ∧ Forall (λ l, s_due l + s_new l ≤ s_cardCount l ∧ 0 ≤ s_due l ∧ 0 ≤ s_new l) (decks d)
    ∧ streak d = streak_of (stats_of sample_orphan)
    ∧ 0 ≤ dueToday d ≤ totalCards d ∧ 0 ≤ mastered d ≤ totalCards d.
Proof.
  apply (dashboard_counts t0 sample_orphan).
  - vm_compute. exact I.
  - repeat constructor; vm_compute; exact I.
Defined.

(** * Creating and deleting decks *)

Lemma index_ok_load_decks (s : store) : index_ok s → load_decks s = IndexDoc (index_of s).
Proof.
  unfold index_of, index_ok, load_decks.
  destruct (s !! index_path) as [[dk|r]|]; [contradiction|reflexivity|reflexivity].
Qed.

Lemma index_ok_save_deck id dk (s : store) :
  id ≠ "decks" → index_ok s → index_ok (save_deck id dk s).
Proof.
  intros Hne Hi. unfold index_ok, save_deck.
  rewrite lookup_insert_ne; [exact Hi|]. intros E. apply Hne, deck_path_index, E.
Qed.

Lemma create_deck_run id now name source cards (s : store) :
  id ≠ "decks" → index_ok s →
  create_deck id now name source cards s =
    (save_decks
       {| r_decks := (r_decks (index_of s) ++ [new_entry id now name source cards])%list;
          r_stats := stats_of s |}
       (save_deck id (new_deck id now name source cards) s),
     Return (new_deck id now name source cards)).
Proof.
  intros Hne Hi. unfold create_deck. fold (new_deck id now name source cards).
  rewrite load_decks_save_deck by exact Hne.
  rewrite (index_ok_load_decks s Hi). unfold new_entry, stats_of.
  rewrite length_imap. reflexivity.
Qed.

Lemma filter_imap_all t (g : nat → string * string → card) cards :
  (∀ i fb, is_due t (g i fb) = true) →
  filter (λ c, is_due t c = true) (imap g cards) = imap g cards.
Proof.
  revert g. induction cards as [|fb cards IH]; intros g Hg; [reflexivity|].
  rewrite imap_cons, filter_cons_True by apply Hg. f_equal.
  apply IH. intros i fb'. apply Hg.
Qed.

Lemma init_cards_all_due id now t cards :
  filter (λ c, is_due t c = true) (imap (init_card id now) cards)
  = imap (init_card id now) cards.
Proof. apply filter_imap_all. reflexivity. Qed.

(** X7: [create_deck] stores the deck under its id with every card at the
    defaults (interval 1, ease 2.5, reps 0, due null, id "{deck_id}-{i}"),
    appends one index entry counting the cards, after the existing entries,
    and keeps the statistics and the other decks; at any time all the new
    cards are due, in input order. *)
Theorem create_deck_spec id now name source cards (s : store) :
  id ≠ "decks" → id ≠ "" → index_ok s →
  let dk := new_deck id now name source cards in
  let s' := (create_deck id now name source cards s).1 in
  (create_deck id now name source cards s).2 = Return dk
  ∧ load_deck s' id = Some (DeckDoc dk)
  ∧ list_decks s'
    = Return (r_decks (index_of s) ++ [new_entry id now name source cards])%list
  ∧ stats_of s' = stats_of s
  ∧ (∀ id', id' ≠ id → id' ≠ "decks" → load_deck s' id' = load_deck s id')
  ∧ length (d_cards dk) = length cards
  ∧ (∀ i fb, cards !! i = Some fb →
       d_cards dk !! i =
         Some {| c_id := id ++ "-" ++ pretty i; c_front := fb.1; c_back := fb.2;
                 c_interval := Some 1; c_ease := Some 2.5%float; c_due := None;
                 c_reps := Some 0; c_created := now;
                 c_lastReview := None; c_lastRating := None;
                 c_deck_id := None; c_deck_name := None |})
  ∧ (∀ t, get_due_cards t (Some id) s' = Return (annotate id name <$> d_cards dk)).
Proof.
  intros Hne Hid Hi dk s'. unfold s'. rewrite create_deck_run by assumption.
  cbn [fst snd]. fold dk.
  split; [reflexivity|].
  split; [rewrite load_deck_save_decks by exact Hne; apply load_deck_save_deck|].
  split; [unfold list_decks; rewrite load_decks_save_decks; reflexivity|].
  split; [apply stats_of_save_decks|].
  split.
  { intros id' H1 H2. rewrite load_deck_save_decks by exact H2.
    apply load_deck_save_deck_ne. congruence. }
  split; [apply length_imap|].
  split.
  { intros i fb Hl. cbn [dk new_deck d_cards]. rewrite list_lookup_imap, Hl. reflexivity. }
  intros t. unfold get_due_cards. destruct id as [|a id]; [congruence|]. cbn [truthy].
  rewrite load_deck_save_decks by exact Hne. rewrite load_deck_save_deck.
  cbn [scan_deck]. rewrite scan_cards_spec. cbn [app dk new_deck d_cards d_name].
  rewrite init_cards_all_due. reflexivity.
Qed.

Lemma create_deck_spec_witness :
  (create_deck "bio-1a2b3c" t0 "Bio" "manual" [("cell", "unit of life"); ("dna", "genome")] ∅).2
  = Return (new_deck "bio-1a2b3c" t0 "Bio" "manual" [("cell", "unit of life"); ("dna", "genome")]).
Proof.
  exact (proj1 (create_deck_spec "bio-1a2b3c" t0 "Bio" "manual"
                  [("cell", "unit of life"); ("dna", "genome")] ∅
                  ltac:(discriminate) ltac:(discriminate) I)).
Defined.

Lemma find_card_created id now cards i fb :
  cards !! i = Some fb →
  find_card (id ++ "-" ++ pretty i) 0 (imap (init_card id now) cards)
  = Some (i, init_card id now i fb).
Proof.
  intros Hl.
  assert (G : ∀ (cs : list (string * string)) (k j : nat),
    cs !! j = Some fb → i = (k + j)%nat →
    find_card (id ++ "-" ++ pretty i) k (imap (λ n, init_card id now (k + n)) cs)
    = Some (i, init_card id now i fb)).
  { induction cs as [|fb0 cs IH]; intros k j Hj Hi; [discriminate|].
    rewrite imap_cons. cbn [find_card]. destruct j as [|j].
    - injection Hj as ->. subst i. rewrite Nat.add_0_r.
      cbn [init_card c_id]. rewrite String.eqb_refl. reflexivity.
    - cbn [init_card c_id].
      destruct (String.eqb_spec (id ++ "-" ++ pretty (k + 0)%nat) (id ++ "-" ++ pretty i))
        as [E|_].
      + exfalso. apply (inj (String.app id)) in E. apply (inj (String.app "-")) in E.
        apply (inj pretty) in E. lia.
      + rewrite (imap_ext _ (λ n, init_card id now (S k + n))).
        * apply (IH (S k) j Hj). lia.
        * intros n x _. cbn. f_equal. lia. }
  apply (G cards 0%nat i Hl). reflexivity.
Qed.

(** X8: the card ids of a created deck are pairwise distinct, so a review
    addressed to "{deck_id}-{i}" reaches the i-th card: with a valid rating
    and a date inside the calendar it returns that card, texts unchanged,
    not due before the next day; the (i)-th card is the one rewritten. *)
Theorem review_created_card id now name source cards (s : store) t rating i fb :
  id ≠ "decks" → index_ok s →
  cards !! i = Some fb →
  valid_rating rating → 0 ≤ t → t + 4 * day_us < datetime_end →
  let s1 := (create_deck id now name source cards s).1 in
  ∃ c' dk',
    (update_card t id (id ++ "-" ++ pretty i) rating s1).2 = Return c'
    ∧ c_id c' = id ++ "-" ++ pretty i ∧ c_front c' = fb.1 ∧ c_back c' = fb.2
    ∧ c_reps c' = Some (if rating =? 0 then 0 else 1)
    ∧ is_due t c' = false
    ∧ load_deck (update_card t id (id ++ "-" ++ pretty i) rating s1).1 id = Some (DeckDoc dk')
    ∧ d_cards dk' = <[i := c']> (imap (init_card id now) cards).
Proof.
  intros Hne Hi Hl Hv H0 Hend s1. unfold s1. rewrite create_deck_run by assumption.
  cbn [fst]. set (dk := new_deck id now name source cards).
  set (s2 := save_decks _ _).
  assert (Hd : load_deck s2 id = Some (DeckDoc dk)).
  { unfold s2. rewrite load_deck_save_decks by exact Hne. apply load_deck_save_deck. }
  assert (Hf := find_card_created id now cards i fb Hl).
  destruct (valid_rating_cases rating Hv) as [r ->].
  destruct (sm2_defaults r) as (i' & e' & r' & Hs & Hi').
  assert (Hday : day_us = 86400000000) by reflexivity.
  assert (Hde : datetime_end = 3652059 * 86400000000) by reflexivity.
  assert (Hr : ∃ c', review_card t (init_card id now i fb) (rating_value r) = Return c').
  { unfold review_card. cbn -[sm2 add_days py_round2 rating_value]. rewrite Hs.
    cbn -[add_days py_round2]. unfold add_days.
    destruct (Z.ltb_spec 999999999 (Z.abs i')); [lia|].
    destruct (Z.leb_spec 0 (t + i' * day_us)); [|lia].
    destruct (Z.ltb_spec (t + i' * day_us) datetime_end); [|lia].
    cbn. eauto. }
  destruct Hr as [c' Hr].
  assert (Hi2 : index_ok s2).
  { unfold s2, index_ok, save_decks. rewrite lookup_insert_eq. exact I. }
  rewrite (update_card_run t id _ (rating_value r) s2 dk i _ c' Hd Hf Hr Hne Hi2).
  cbn [fst snd].
  destruct (review_card_sm2 _ _ _ _ Hr) as (i'' & e'' & r'' & Hs' & _ & _ & _ & Er & Edue & _ & _ & Eid).
  unfold interval_of, ease_of, reps_of in Hs'.
  cbn -[sm2 rating_value] in Hs'.
  assert (Hreps := sm2_reps _ _ _ _ _ _ _ Hs').
  rewrite Hs in Hs'. injection Hs' as <- <- <-.
  exists c'. eexists. split; [reflexivity|].
  split; [rewrite Eid; reflexivity|].
  assert (Hfb : c_front c' = fb.1 ∧ c_back c' = fb.2).
  { unfold review_card in Hr.
    destruct (sm2 _ _ _ (rating_value r)) as [[[a b] c]|]; [|discriminate]. cbn in Hr.
    destruct (add_days t a); [|discriminate]. cbn in Hr. injection Hr as <-. auto. }
  destruct Hfb as [-> ->]. split; [reflexivity|]. split; [reflexivity|].
  split; [rewrite Er, Hreps; reflexivity|].
  split; [unfold is_due; rewrite Edue; apply Z.leb_gt; lia|].
  split; [rewrite load_deck_save_decks by exact Hne; apply load_deck_save_deck|].
  reflexivity.
Qed.

Lemma review_created_card_witness :
  ∃ c' dk',
    (update_card t0 "bio-1a2b3c" ("bio-1a2b3c" ++ "-" ++ pretty 1%nat) 3 sample_store).2
    = Return c'
    ∧ c_id c' = "bio-1a2b3c" ++ "-" ++ pretty 1%nat
    ∧ c_front c' = ("dna", "genome").1 ∧ c_back c' = ("dna", "genome").2
    ∧ c_reps c' = Some (if 3 =? 0 then 0 else 1)
    ∧ is_due t0 c' = false
    ∧ load_deck (update_card t0 "bio-1a2b3c" ("bio-1a2b3c" ++ "-" ++ pretty 1%nat) 3
                   sample_store).1 "bio-1a2b3c" = Some (DeckDoc dk')
    ∧ d_cards dk' = <[1%nat := c']>
                      (imap (init_card "bio-1a2b3c" t0)
                         [("cell", "unit of life"); ("dna", "genome")]).
Proof.
  exact (review_created_card "bio-1a2b3c" t0 "Bio" "manual"
           [("cell", "unit of life"); ("dna", "genome")] ∅ t0 3 1%nat ("dna", "genome")
           ltac:(discriminate) I eq_refl ltac:(unfold valid_rating; lia)
           ltac:(vm_compute; discriminate) ltac:(vm_compute; reflexivity)).
Defined.

(** X9: deleting a deck other than "decks" removes its record and every
    index entry with its id, keeps the other entries in their order, and
    leaves the statistics and the other decks' records untouched. *)
Theorem delete_deck_frame id (s : store) :
  id ≠ "decks" → index_ok s →
  let s1 := (delete_deck id s).1 in
  (delete_deck id s).2 = Return true
  ∧ load_deck s1 id = None
  ∧ r_decks (index_of s1) = filter (λ m, m_id m ≠ id) (r_decks (index_of s))
  ∧ (∀ m, m ∈ r_decks (index_of s1) ↔ m ∈ r_decks (index_of s) ∧ m_id m ≠ id)
  ∧ stats_of s1 = stats_of s
  ∧ (∀ id', id' ≠ id → id' ≠ "decks" → load_deck s1 id' = load_deck s id').
Proof.
  intros Hne Hi s1. unfold s1. rewrite delete_deck_run by (right; exact Hi).
  cbn [fst snd].
  assert (Hp : deck_path id ≠ index_path) by (intros E; apply Hne, deck_path_index, E).
  assert (E1 : index_of (delete (deck_path id) s) = index_of s).
  { unfold index_of, load_decks. rewrite lookup_delete_ne by exact Hp. reflexivity. }
  unfold stats_of. rewrite !index_of_save_decks, E1. cbn [r_decks r_stats].
  split; [reflexivity|].
  split; [rewrite load_deck_save_decks by exact Hne; apply lookup_delete_eq|].
  split; [reflexivity|].
  split; [intros m; rewrite list_elem_of_filter; tauto|].
  split; [reflexivity|].
  intros id' H1 H2. rewrite load_deck_save_decks by exact H2.
  apply lookup_delete_ne. intros E. apply H1. symmetry. apply deck_path_inj, E.
Qed.

Lemma delete_deck_frame_witness :
  (delete_deck "bio-1a2b3c" sample_store).2 = Return true
  ∧ load_deck (delete_deck "bio-1a2b3c" sample_store).1 "bio-1a2b3c" = None
  ∧ r_decks (index_of (delete_deck "bio-1a2b3c" sample_store).1)
    = filter (λ m, m_id m ≠ "bio-1a2b3c") (r_decks (index_of sample_store))
  ∧ (∀ m, m ∈ r_decks (index_of (delete_deck "bio-1a2b3c" sample_store).1)
          ↔ m ∈ r_decks (index_of sample_store) ∧ m_id m ≠ "bio-1a2b3c")
  ∧ stats_of (delete_deck "bio-1a2b3c" sample_store).1 = stats_of sample_store
  ∧ (∀ id', id' ≠ "bio-1a2b3c" → id' ≠ "decks" →
       load_deck (delete_deck "bio-1a2b3c" sample_store).1 id' = load_deck sample_store id').
Proof.
  exact (delete_deck_frame "bio-1a2b3c" sample_store ltac:(discriminate)
           ltac:(vm_compute; exact I)).
Defined.

(** X10: the deck id "decks" names the index file itself: deleting it
    returns [True] but erases every index entry and resets the statistics to
    their defaults, while the deck records stay on disk without an entry. *)
Theorem delete_decks_erases_index (s : store) :
  (delete_deck "decks" s).2 = Return true
  ∧ index_of (delete_deck "decks" s).1 = default_index
  ∧ st_totalReviews (stats_of (delete_deck "decks" s).1) = Some 0
  ∧ list_decks (delete_deck "decks" s).1 = Return []
  ∧ (∀ id, id ≠ "decks" →
       load_deck (delete_deck "decks" s).1 id = load_deck s id).
Proof.
  rewrite delete_deck_run by (left; reflexivity). cbn [fst snd].
  assert (E : index_of (delete (deck_path "decks") s) = default_index).
  { unfold index_of, load_decks. rewrite deck_path_decks, lookup_delete_eq. reflexivity. }
  unfold stats_of, list_decks. rewrite load_decks_save_decks, !index_of_save_decks, E.
  repeat split.
  intros id Hne. rewrite load_deck_save_decks by exact Hne.
  apply lookup_delete_ne. rewrite deck_path_decks. intros E'. symmetry in E'.
  apply Hne, deck_path_index, E'.
Qed.

(** X11: creating a deck and deleting it again restores the store, when the
    id was free: no record, no index entry with it, and an index on disk. *)
Theorem create_then_delete id now name source cards (s : store) r :
  id ≠ "decks" →
  s !! index_path = Some (IndexDoc r) →
  load_deck s id = None →
  Forall (λ m, m_id m ≠ id) (r_decks r) →
  (delete_deck id (create_deck id now name source cards s).1).1 = s
  ∧ (delete_deck id (create_deck id now name source cards s).1).2 = Return true.
Proof.
  intros Hne Hi Hd Hfree.
  assert (Hok : index_ok s) by (unfold index_ok; rewrite Hi; exact I).
  assert (Eidx : index_of s = r) by (unfold index_of, load_decks; rewrite Hi; reflexivity).
  assert (Hp : deck_path id ≠ index_path) by (intros E; apply Hne, deck_path_index, E).
  rewrite create_deck_run by assumption. cbn [fst].
  rewrite delete_deck_run
    by (right; unfold index_ok, save_decks; rewrite lookup_insert_eq; exact I).
  cbn [fst snd]. split; [|reflexivity].
  set (r1 := {| r_decks := r_decks (index_of s) ++ [new_entry id now name source cards];
                r_stats := stats_of s |}).
  assert (Edel : delete (deck_path id) (save_decks r1 (save_deck id (new_deck id now name source cards) s))
                 = save_decks r1 s).
  { unfold save_decks, save_deck.
    rewrite delete_insert_ne by exact Hp. rewrite delete_insert_eq.
    rewrite delete_id by exact Hd. reflexivity. }
  rewrite Edel. unfold stats_of. rewrite index_of_save_decks. cbn [r1 r_decks r_stats].
  unfold stats_of. rewrite !Eidx, filter_app.
  assert (F1 : filter (λ d, m_id d ≠ id) (r_decks r) = r_decks r).
  { clear -Hfree. induction Hfree as [|m l Hm Hl IH]; [reflexivity|].
    rewrite filter_cons_True by exact Hm. f_equal. exact IH. }
  rewrite F1. rewrite filter_cons_False by (cbn; intros H; apply H; reflexivity).
  rewrite filter_nil, app_nil_r.
  unfold save_decks. rewrite insert_insert_eq.
  destruct r as [ds st]. cbn [r_decks r_stats].
  apply insert_id. exact Hi.
Qed.

Lemma create_then_delete_witness :
  (delete_deck "geo-4d5e6f"
     (create_deck "geo-4d5e6f" t0 "Geo" "manual" [("alps", "mountains")] sample_store).1).1
  = sample_store
  ∧ (delete_deck "geo-4d5e6f"
       (create_deck "geo-4d5e6f" t0 "Geo" "manual" [("alps", "mountains")] sample_store).1).2
    = Return true.
Proof.
  apply (create_then_delete "geo-4d5e6f" t0 "Geo" "manual" [("alps", "mountains")]
           sample_store {| r_decks := [bio_meta]; r_stats := r_stats default_index |}).
  - discriminate.
  - vm_compute. reflexivity.
  - vm_compute. reflexivity.
  - repeat constructor. discriminate.
Defined.

(** ** Statistics kept consistent *)

Lemma activity_total_update_stats today st :
  activity_total (update_stats today st) = activity_total st + 1.
Proof.
  assert (Hc : ∀ (m : gmap Z Z) (j1 j2 : Z) (z1 z2 y : Z),
             j1 ≠ j2 → m !! j1 = Some z1 → m !! j2 = Some z2 →
             z1 + (z2 + y) = z2 + (z1 + y)) by (intros; lia).
  unfold activity_total.
  replace (default ∅ (st_activity (update_stats today st)))
    with (<[today := default 0 (default ∅ (st_activity st) !! today) + 1]>
            (default ∅ (st_activity st)))
    by (unfold update_stats; destruct (st_lastStudy st) as [d|];
        [destruct (d =? today)|]; reflexivity).
  generalize (default ∅ (st_activity st)). intros a.
  destruct (a !! today) as [v|] eqn:E; cbn [default].
  - rewrite (map_fold_delete_L _ 0 today v a) by (intros; lia || exact E).
    rewrite <- insert_delete_eq.
    rewrite map_fold_insert_L; [unfold Datatypes.id; lia|intros; lia|apply lookup_delete_eq].
  - rewrite map_fold_insert_L; [unfold Datatypes.id; lia|intros; lia|exact E].
Qed.

Lemma stats_inv_update_stats today st :
  stats_inv st → stats_inv (update_stats today st).
Proof.
  intros (H1 & H2 & H3). unfold stats_inv.
  rewrite activity_total_update_stats, <- H1.
  unfold update_stats, streak_of in *.
  destruct (st_lastStudy st) as [d|] eqn:Hl; cbn.
  - specialize (H3 ltac:(eauto)).
    destruct (Z.eqb_spec d today) as [->|Hne]; cbn.
    + split; [reflexivity|]. split; [lia|]. intros _. exact H3.
    + split; [reflexivity|].
      destruct (Z.eqb_spec (today - d) 1); cbn; [split; [lia|intros _; lia]|].
      destruct (Z.ltb_spec 1 (today - d)); cbn; (split; [lia|intros _; lia]).
  - split; [reflexivity|]. split; [lia|]. intros _. lia.
Qed.

(** X12: every successful review adds exactly one to the sum of the daily
    activity counts, so [totalReviews] and the activity histogram stay in
    step; with that the streak stays between 0 and [totalReviews], and at
    least 1 once a study day is recorded. *)
Theorem review_keeps_stats_consistent now id cid rating (s s' : store) c' :
  update_card now id cid rating s = (s', Return c') →
  activity_total (stats_of s') = activity_total (stats_of s) + 1
  ∧ (stats_inv (stats_of s) → stats_inv (stats_of s')).
Proof.
  intros H.
  destruct (update_card_Return _ _ _ _ _ _ _ H) as (dk & idx & c & _ & _ & _ & _ & _ & ->).
  rewrite stats_of_save_decks. split.
  - apply activity_total_update_stats.
  - apply stats_inv_update_stats.
Qed.

Lemma review_keeps_stats_consistent_witness :
  stats_inv (stats_of sample_reviewed)
  ∧ stats_inv
      (stats_of (update_card (t0 + 7 * day_us) "bio-1a2b3c" "bio-1a2b3c-0" 2 sample_reviewed).1).
Proof.
  assert (H : stats_inv (stats_of sample_reviewed)).
  { vm_compute. repeat split; discriminate. }
  split; [exact H|].
  exact (proj2 (review_keeps_stats_consistent (t0 + 7 * day_us) "bio-1a2b3c" "bio-1a2b3c-0" 2
    sample_reviewed
    (update_card (t0 + 7 * day_us) "bio-1a2b3c" "bio-1a2b3c-0" 2 sample_reviewed).1
    sample_card3 ltac:(vm_compute; reflexivity)) H).
Defined.

(** ** Export for the canvas templates *)

Lemma quiz_question_init_card id now i fb :
  quiz_question (init_card id now i fb) = recall_question fb.
Proof. destruct fb. reflexivity. Qed.

Lemma fmap_imap_const {A B C} (g : B → C) (h : A → C) (f : nat → A → B) (l : list A) :
  (∀ i x, g (f i x) = h x) → g <$> imap f l = h <$> l.
Proof.
  intros H. revert f H. induction l as [|x l IH]; intros f H; [reflexivity|].
  cbn. rewrite H. f_equal. apply IH. intros i y. apply H.
Qed.

(** X13: exporting a freshly created deck: the flashcards export carries the
    deck name and its cards, the quiz export one question per input pair, in
    input order, asking the front with the back as option 0 (the correct
    one) and "I don't know" as the only other option. *)
Theorem export_created_deck id now name source cards (s : store) :
  id ≠ "decks" → index_ok s →
  let s' := (create_deck id now name source cards s).1 in
  export_for_canvas id "flashcards" s'
    = Return (FlashcardsJs name (imap (init_card id now) cards))
  ∧ export_for_canvas id "quiz" s'
    = Return (QuizJs name (recall_question <$> cards)).
Proof.
  intros Hne Hi s'. unfold s'. rewrite create_deck_run by assumption. cbn [fst].
  unfold export_for_canvas.
  rewrite load_deck_save_decks by exact Hne. rewrite load_deck_save_deck.
  cbn. split; [reflexivity|].
  rewrite (fmap_imap_const quiz_question recall_question)
    by (intros; apply quiz_question_init_card).
  reflexivity.
Qed.

Lemma export_created_deck_witness :
  export_for_canvas "bio-1a2b3c" "quiz"
    (create_deck "bio-1a2b3c" t0 "Bio" "manual" [("cell", "unit of life")] ∅).1
  = Return (QuizJs "Bio" (recall_question <$> [("cell", "unit of life")])).
Proof.
  exact (proj2 (export_created_deck "bio-1a2b3c" t0 "Bio" "manual" [("cell", "unit of life")] ∅
                  ltac:(discriminate) I)).
Defined.

(** X14: reviewing a card never changes what a deck exports as a quiz: the
    questions depend on the fronts and backs only, which a review keeps. *)
Theorem review_keeps_quiz_export now id cid rating (s s' : store) c' id' :
  update_card now id cid rating s = (s', Return c') →
  id' ≠ "decks" →
  export_for_canvas id' "quiz" s' = export_for_canvas id' "quiz" s.
Proof.
  intros H Hne'.
  destruct (update_card_Return _ _ _ _ _ _ _ H)
    as (dk & idx & c & Hd & Hf & Hr & Hne & Hi & ->).
  unfold export_for_canvas. rewrite load_deck_save_decks by exact Hne'.
  destruct (decide (id' = id)) as [->|Hd'].
  - rewrite load_deck_save_deck, Hd. cbn. do 2 f_equal.
    apply find_card_lookup in Hf as (_ & Hl & _). rewrite Nat.sub_0_r in Hl.
    rewrite list_fmap_insert.
    apply list_insert_id. rewrite list_lookup_fmap, Hl. cbn. f_equal.
    unfold review_card in Hr.
    destruct (sm2 _ _ _ _) as [[[i e] r]|]; [|discriminate]. cbn in Hr.
    destruct (add_days now i); [|discriminate]. cbn in Hr.
    injection Hr as <-. reflexivity.
  - rewrite load_deck_save_deck_ne by (intros E; apply Hd'; symmetry; exact E). reflexivity.
Qed.

Lemma review_keeps_quiz_export_witness :
  export_for_canvas "bio-1a2b3c" "quiz"
    (update_card (t0 + 7 * day_us) "bio-1a2b3c" "bio-1a2b3c-0" 2 sample_reviewed).1
  = export_for_canvas "bio-1a2b3c" "quiz" sample_reviewed.
Proof.
  exact (review_keeps_quiz_export (t0 + 7 * day_us) "bio-1a2b3c" "bio-1a2b3c-0" 2
    sample_reviewed
    (update_card (t0 + 7 * day_us) "bio-1a2b3c" "bio-1a2b3c-0" 2 sample_reviewed).1
    sample_card3 "bio-1a2b3c" ltac:(vm_compute; reflexivity) ltac:(discriminate)).
Defined.

(** X15: a deleted deck can no longer be exported: whatever the template,
    known or not, the export raises [ValueError "Deck not found: <id>"]; the
    deck is looked up before the template is. *)
Theorem export_after_delete id template (s : store) :
  id ≠ "decks" → index_ok s →
  export_for_canvas id template (delete_deck id s).1
  = Raise (ValueError ("Deck not found: " ++ id)).
Proof.
  intros Hne Hi. rewrite delete_deck_run by (right; exact Hi). cbn [fst].
  unfold export_for_canvas. rewrite load_deck_save_decks by exact Hne.
  unfold load_deck. rewrite lookup_delete_eq. reflexivity.
Qed.

Lemma export_after_delete_witness :
  export_for_canvas "bio-1a2b3c" "slides" (delete_deck "bio-1a2b3c" sample_store).1
  = Raise (ValueError "Deck not found: bio-1a2b3c").
Proof.
  exact (export_after_delete "bio-1a2b3c" "slides" sample_store ltac:(discriminate)
           ltac:(vm_compute; exact I)).
Defined.

(** X16: an unknown template is refused for every stored deck with
    [ValueError "Unknown template: <template>"], and the id "decks", which
    names the index file, can never be exported as flashcards or quiz: the
    index has no "cards" key. *)
Theorem export_refusals template (s : store) :
  (∀ id d, load_deck s id = Some d →
     template ≠ "flashcards" → template ≠ "quiz" →
     export_for_canvas id template s
     = Raise (ValueError ("Unknown template: " ++ template)))
  ∧ (∀ r, s !! index_path = Some (IndexDoc r) →
       export_for_canvas "decks" "flashcards" s = Raise (KeyError "cards")
       ∧ export_for_canvas "decks" "quiz" s = Raise (KeyError "cards")).
Proof.
  split.
  - intros id d Hd H1 H2. unfold export_for_canvas. rewrite Hd.
    apply String.eqb_neq in H1, H2. rewrite H1, H2. reflexivity.
  - intros r Hr. unfold export_for_canvas, load_deck.
    rewrite deck_path_decks, Hr. split; reflexivity.
Qed.

(** ** Deck identifiers *)

Lemma string_app_inv_head (s a b : string) : s ++ a = s ++ b → a = b.
Proof.
  induction s as [|ch s IH]; cbn; [auto|]. intros [= E]. apply IH, E.
Qed.

(** X17: a generated deck id, a slug and six hexadecimal digits joined by a
    dash, is never empty and never "decks", so the deck's file is never the
    index file; for one slug, different digits give different ids. *)
Theorem generate_deck_id_safe slug h :
  String.length h = 6%nat →
  generate_deck_id slug h ≠ ""
  ∧ generate_deck_id slug h ≠ "decks"
  ∧ deck_path (generate_deck_id slug h) ≠ index_path
  ∧ truthy (Some (generate_deck_id slug h)) = Some (generate_deck_id slug h)
  ∧ (∀ h', generate_deck_id slug h = generate_deck_id slug h' → h = h').
Proof.
  intros Hh.
  assert (Hlen : (7 ≤ String.length (generate_deck_id slug h))%nat).
  { unfold generate_deck_id. rewrite !string_length_app. simpl. lia. }
  assert (H1 : generate_deck_id slug h ≠ "") by (intros E; rewrite E in Hlen; simpl in Hlen; lia).
  assert (H2 : generate_deck_id slug h ≠ "decks")
    by (intros E; rewrite E in Hlen; simpl in Hlen; lia).
  split; [exact H1|]. split; [exact H2|].
  split; [intros E; apply H2, deck_path_index, E|].
  split.
  - unfold truthy. destruct (generate_deck_id slug h); [contradiction|reflexivity].
  - intros h' E. unfold generate_deck_id in E.
    apply string_app_inv_head in E. cbn in E. injection E as E. exact E.
Qed.

Lemma generate_deck_id_safe_witness :
  truthy (Some (generate_deck_id "cell-biology" "1a2b3c"))
  = Some (generate_deck_id "cell-biology" "1a2b3c").
Proof.
  exact (proj1 (proj2 (proj2 (proj2
           (generate_deck_id_safe "cell-biology" "1a2b3c" eq_refl))))).
Defined.
